(** * ITSM incident analytics: the tools of [itsm_analysis/tools/tools.py]

    A shallow embedding of the rule- and statistics-based tools
    ([compute_weekly_trend], [check_sla_breach],
    [detect_priority_inconsistencies], [sla_breach_summary]) and the
    properties the specification states about them.

    Conventions of the embedding.
    - A pandas DataFrame built from the [data] dictionary is the list of its
      rows, in index order, each cell as the frame holds it once pandas has
      built the column: a missing value of a datetime column is [NaT], also
      where the dictionary had [None] beside Timestamps.
    - Python floats (hours, ratios, percentages, rolling averages) are exact
      rationals [Q]; the one non-finite value the code builds,
      [float('inf')], is a constructor of its own.  Rounding of binary
      floating point is not part of the model.
    - A [datetime.timedelta] is its number of microseconds, an integer, as
      CPython stores it; [timedelta(hours=h)] rounds half to even.  The range
      limit of [timedelta] (10^9 days) is not part of the model.
    - A timestamp is its number of seconds since the Unix epoch.
    - [pd.to_datetime] on one value is modelled by what it gives for each
      kind of cell.  On a whole column it reads every cell in one format and
      may refuse cells it would read alone; there it is a parameter of the
      embedding, bound by [Trend.column_parser]. *)

From Stdlib Require Import Ascii String ZArith QArith Qround Lia.
From stdpp Require Import gmap strings list sorting pretty.

Local Open Scope Z_scope.

(** ** Numbers *)

Module Num.

(** [a < b] on floats, as a boolean. *)
Definition Qltb (a b : Q) : bool :=
  Qnum a * QDen b <? Qnum b * QDen a.

(** Nearest integer, ties to the even one: the rounding of Python's
    [round] and of the [timedelta] constructor. *)
Definition round_half_even (q : Q) : Z :=
  let fl := Qfloor q in
  match (2 * (Qnum q mod QDen q)) ?= QDen q with
  | Lt => fl
  | Gt => fl + 1
  | Eq => if Z.even fl then fl else fl + 1
  end.

(** A float that may be [float('inf')]. *)
Inductive xfloat : Type :=
  | Fin (q : Q)
  | PosInf.

(** [x > c] for a finite constant [c]. *)
Definition xgtb (x : xfloat) (c : Q) : bool :=
  match x with
  | Fin q => Qltb c q
  | PosInf => true
  end.

Definition xgt (x : xfloat) (c : Q) : Prop :=
  match x with
  | Fin q => (c < q)%Q
  | PosInf => True
  end.

Definition xle (x : xfloat) (c : Q) : Prop :=
  match x with
  | Fin q => (q <= c)%Q
  | PosInf => False
  end.

(** [round(x, 2)]: [round] leaves [inf] as it is when digits are given. *)
Definition round2 (x : xfloat) : xfloat :=
  match x with
  | Fin q => Fin (inject_Z (round_half_even (q * 100)) / 100)
  | PosInf => PosInf
  end.

End Num.

(** ** [datetime.timedelta] *)

Module Timedelta.

(** Microseconds. *)
Definition t : Type := Z.

(** [timedelta(hours=h)]. *)
Definition of_hours (h : Q) : t :=
  Num.round_half_even (h * 3600000000).

(** [d.total_seconds()]. *)
Definition total_seconds (d : t) : Q :=
  inject_Z d / 1000000.

(** [bool(d)]: a duration is true iff it is not [timedelta(0)]. *)
Definition truthy (d : t) : bool := negb (d =? 0).

(** [a > b]. *)
Definition gtb (a b : t) : bool := b <? a.

End Timedelta.

(** ** Incident rows *)

(** A cell of the [Open_Time__] column, as a row of the frame holds it. *)
Inductive time_cell : Type :=
  | TimeNone                (* [None], in a column of objects *)
  | TimeNaT                 (* [NaT] (or NaN): the missing value of a
                               datetime column *)
  | TimeInvalid             (* a value on which [pd.to_datetime] raises *)
  | TimeStamp (secs : Z).   (* a Timestamp, or a text that reads as this
                               instant, alone and within its column *)

(** The instant a cell stands for, if it stands for one. *)
Definition instant_of (c : time_cell) : option Z :=
  match c with
  | TimeStamp s => Some s
  | _ => None
  end.

Inductive py_exn : Type :=
  | ParserError
  | IndexError.

(** What [pd.to_datetime] gives back for one value: [None], the missing
    timestamp [pd.NaT], or a Timestamp. *)
Inductive datetime : Type :=
  | PyNone
  | NaT
  | At (secs : Z).

Global Instance datetime_eq_dec : EqDecision datetime.
Proof. solve_decision. Defined.

(** [pd.to_datetime] on one cell. *)
Definition to_datetime (c : time_cell) : py_exn + datetime :=
  match c with
  | TimeNone => inr PyNone
  | TimeNaT => inr NaT
  | TimeInvalid => inl ParserError
  | TimeStamp s => inr (At s)
  end.

(** [pd.notna] on an [Open_Time__] cell. *)
Definition time_notna (c : time_cell) : bool :=
  match c with
  | TimeNone | TimeNaT => false
  | TimeInvalid | TimeStamp _ => true
  end.

(** One row of the snapshot.  [Handle_Time_hrs] is [None] for a missing
    value (NaN), the case [pd.notna] rejects. *)
Record incident : Type := {
  Incident_ID : string;
  Priority_enc : Z;
  Impact_enc : Z;
  Urgency_enc : Z;
  Handle_Time_hrs : option Q;
  Open_Time__ : time_cell
}.

Inductive severity : Type := Critical | High | Medium | Low.

Global Instance severity_eq_dec : EqDecision severity.
Proof. solve_decision. Defined.

(** ** [check_sla_breach] *)

Module SLA.

(** A key of the [sla_definitions] dictionary the caller passes. *)
Inductive sla_key : Type :=
  | KTuple (impact urgency : Z)
  | KStr (s : string).

(** The f-string ["{impact}_{urgency}"]. *)
Definition fmt_key (impact urgency : Z) : string :=
  pretty impact +:+ "_" +:+ pretty urgency.

Definition str_key (k : sla_key) : string :=
  match k with
  | KTuple i u => fmt_key i u
  | KStr s => s
  end.

(** The first loop: the table re-keyed by strings, later items winning. *)
Definition str_sla_definitions (sla_definitions : list (sla_key * Timedelta.t))
  : gmap string Timedelta.t :=
  foldl (λ m kv, <[str_key kv.1 := kv.2]> m) ∅ sla_definitions.

(** [Breach_Time] holds the text [isoformat()] gives: the text of a
    Timestamp stands for its instant, ['NaT'] for [NaT]. *)
Record indicator : Type := {
  ind_Incident_ID : string;
  breach : bool;
  ind_Breach_Time : datetime
}.

Record breach_detail : Type := {
  bd_Incident_ID : string;
  bd_Priority_enc : Z;
  bd_Impact_enc : Z;
  bd_Urgency_enc : Z;
  bd_Handle_Time_hrs : Q;
  SLA_Duration_hrs : Q;
  Breach_Time : datetime;
  Severity : severity;
  Breach_Ratio : Num.xfloat
}.

Record report : Type := {
  breaches : list indicator;
  breached_details : list breach_detail;
  total_incidents_analyzed : nat;
  total_sla_breaches : nat;
  sla_breach_percentage : Q
}.

(** [handle_time / sla_hours if sla_hours > 0 else float('inf')]. *)
Definition breach_ratio (handle_time sla_hours : Q) : Num.xfloat :=
  if Num.Qltb 0 sla_hours then Num.Fin (handle_time / sla_hours)
  else Num.PosInf.

(** The [if]/[elif] chain on the ratio. *)
Definition severity_of_ratio (r : Num.xfloat) : severity :=
  if Num.xgtb r 2 then Critical
  else if Num.xgtb r (3 # 2) then High
  else if Num.xgtb r (12 # 10) then Medium
  else Low.

(** The mutable state of the main loop. *)
Record loop_state : Type := {
  st_breaches : list indicator;
  st_details : list breach_detail;
  st_total : nat
}.

Definition init_state : loop_state :=
  {| st_breaches := []; st_details := []; st_total := 0 |}.

(** [try: open_time = pd.to_datetime(raw) except Exception: open_time = None]. *)
Definition parse_open_time (c : time_cell) : datetime :=
  match to_datetime c with
  | inr o => o
  | inl _ => PyNone
  end.

(** [bool(open_time)]: [None] is false; a Timestamp is true, and so is
    [pd.NaT]. *)
Definition truthy (open_time : datetime) : bool :=
  match open_time with
  | PyNone => false
  | NaT | At _ => true
  end.

(** [open_time.isoformat() if open_time else None]. *)
Definition isoformat_or_none (open_time : datetime) : datetime :=
  if truthy open_time then open_time else PyNone.

(** The guard [pd.notna(handle_time) and open_time and sla_duration] as the
    values it lets through. *)
Definition guard (handle_time : option Q) (open_time : datetime)
    (sla_duration : option Timedelta.t)
  : option (Q * datetime * Timedelta.t) :=
  match handle_time, sla_duration with
  | Some h, Some d =>
      if truthy open_time && Timedelta.truthy d
      then Some (h, open_time, d) else None
  | _, _ => None
  end.

Definition detail_of (row : incident) (h : Q) (ot : datetime)
    (d : Timedelta.t) : breach_detail :=
  let sla_hours := (Timedelta.total_seconds d / 3600)%Q in
  let ratio := breach_ratio h sla_hours in
  {| bd_Incident_ID := Incident_ID row;
     bd_Priority_enc := Priority_enc row;
     bd_Impact_enc := Impact_enc row;
     bd_Urgency_enc := Urgency_enc row;
     bd_Handle_Time_hrs := h;
     SLA_Duration_hrs := (Timedelta.total_seconds d / 3600)%Q;
     Breach_Time := isoformat_or_none ot;
     Severity := severity_of_ratio ratio;
     Breach_Ratio := Num.round2 ratio |}.

(** One iteration of [for _, row in df.iterrows()]. *)
Definition step (tbl : gmap string Timedelta.t) (st : loop_state)
    (row : incident) : loop_state :=
  let key := fmt_key (Impact_enc row) (Urgency_enc row) in
  match guard (Handle_Time_hrs row) (parse_open_time (Open_Time__ row))
              (tbl !! key) with
  | Some (h, ot, d) =>
      let is_breach := Timedelta.gtb (Timedelta.of_hours h) d in
      let st1 :=
        if is_breach then
          {| st_breaches := st_breaches st;
             st_details := st_details st ++ [detail_of row h ot d];
             st_total := S (st_total st) |}
        else st in
      {| st_breaches := st_breaches st1 ++
           [{| ind_Incident_ID := Incident_ID row;
               breach := is_breach;
               ind_Breach_Time := isoformat_or_none ot |}];
         st_details := st_details st1;
         st_total := st_total st1 |}
  | None => st
  end.

(** [count / total * 100 if total > 0 else 0]. *)
Definition percentage (count total : nat) : Q :=
  if (0 <? total)%nat
  then (inject_Z (Z.of_nat count) / inject_Z (Z.of_nat total) * 100)%Q
  else 0%Q.

Definition check_sla_breach (data : list incident)
    (sla_definitions : list (sla_key * Timedelta.t)) : report :=
  let total_incidents := length data in
  let tbl := str_sla_definitions sla_definitions in
  let st := foldl (step tbl) init_state data in
  {| breaches := st_breaches st;
     breached_details := st_details st;
     total_incidents_analyzed := total_incidents;
     total_sla_breaches := st_total st;
     sla_breach_percentage := percentage (st_total st) total_incidents |}.

(** [sla_breach_summary]. *)
Record summary : Type := {
  total_incidents : nat;
  total_breaches : nat;
  breach_percentage : Q
}.

Definition sla_breach_summary (bs : list indicator) : summary :=
  let total := length bs in
  let breached_count :=
    foldl (λ n b, if breach b then S n else n) 0%nat bs in
  {| total_incidents := total;
     total_breaches := breached_count;
     breach_percentage := percentage breached_count total |}.

(** The default durations [SLAPriorityAgent.__init__] builds, keyed by
    (impact, urgency) tuples, in the order it inserts them. *)
Definition default_sla : list (sla_key * Timedelta.t) :=
  [ (KTuple 1 1, Timedelta.of_hours (1 # 4));
    (KTuple 1 2, Timedelta.of_hours (1 # 2));
    (KTuple 1 3, Timedelta.of_hours 1);
    (KTuple 2 1, Timedelta.of_hours (1 # 2));
    (KTuple 2 2, Timedelta.of_hours 1);
    (KTuple 2 3, Timedelta.of_hours 2);
    (KTuple 3 1, Timedelta.of_hours 1);
    (KTuple 3 2, Timedelta.of_hours 2);
    (KTuple 3 3, Timedelta.of_hours 4) ].

End SLA.


(** ** [compute_weekly_trend] *)

Module Trend.

(** [ts.to_period("W").start_time]: the Monday 00:00 that opens the week of
    [secs] (weeks run Monday to Sunday; the epoch was a Thursday). *)
Definition week_start (secs : Z) : Z :=
  secs - (secs + 3 * 86400) mod 604800.

(** [pd.to_datetime] on the whole column is pandas' own and is a parameter
    here.  It reads the cells in one format, taken from the first cell it
    can read, and raises when a cell does not fit, so it may refuse a column
    whose cells would each be read alone.  What the embedding relies on:
    where it returns, no cell was unreadable, and every cell has the instant
    it stands for, or [NaT] when it stands for none. *)
Definition column_parser
    (to_datetime_series : list time_cell → py_exn + list (option Z)) : Prop :=
  ∀ col,
    match to_datetime_series col with
    | inr times => times = instant_of <$> col ∧ TimeInvalid ∉ col
    | inl _ => True
    end.

(** One such parser, the most permissive: every cell is read on its own,
    and the call raises only when one cell does. *)
Fixpoint read_each_cell (col : list time_cell) : py_exn + list (option Z) :=
  match col with
  | [] => inr []
  | c :: rest =>
      match to_datetime c with
      | inl e => inl e
      | inr _ =>
          match read_each_cell rest with
          | inl e => inl e
          | inr os => inr (instant_of c :: os)
          end
      end
  end.

(** One more row for key [w] in a table of sizes kept sorted by key. *)
Fixpoint bump (w : Z) (sizes : list (Z * Z)) : list (Z * Z) :=
  match sizes with
  | [] => [(w, 1)]
  | (k, c) :: rest =>
      if w <? k then (w, 1) :: sizes
      else if w =? k then (k, c + 1) :: rest
      else (k, c) :: bump w rest
  end.

(** [df.groupby("week").size()]: keys in increasing order, each with the
    number of its rows; rows whose key is missing (NaT) belong to no group. *)
Definition groupby_size (keys : list (option Z)) : list (Z * Z) :=
  foldl (λ sizes k, match k with Some w => bump w sizes | None => sizes end)
        [] keys.

Definition total (xs : list Z) : Z := foldr Z.add 0 xs.

Definition mean (xs : list Z) : Q :=
  inject_Z (total xs) / inject_Z (Z.of_nat (length xs)).

(** The last [n] elements. *)
Definition last_n {A} (n : nat) (xs : list A) : list A :=
  drop (length xs - n) xs.

(** [rolling(window=n, min_periods=1).mean()]: the window slides over the
    series, holding at most the [n] latest values. *)
Fixpoint rolling_from (n : nat) (win : list Z) (xs : list Z) : list Q :=
  match xs with
  | [] => []
  | x :: rest =>
      let win' := last_n n (win ++ [x]) in
      mean win' :: rolling_from n win' rest
  end.

Definition rolling_mean (n : nat) (xs : list Z) : list Q :=
  rolling_from n [] xs.

Record bucket : Type := {
  week : Z;
  incident_count : Z;
  rolling_avg : Q;
  spike : bool
}.

(** [weekly["incident_count"] > weekly["rolling_avg"] * 1.5]. *)
Definition is_spike (count : Z) (avg : Q) : bool :=
  Num.Qltb (avg * (3 # 2)) (inject_Z count).

Definition mk_bucket (kc : Z * Z) (avg : Q) : bucket :=
  {| week := kc.1; incident_count := kc.2; rolling_avg := avg;
     spike := is_spike kc.2 avg |}.

(** The records for a table of weekly sizes. *)
Definition trend_of_sizes (weekly : list (Z * Z)) : list bucket :=
  zip_with mk_bucket weekly (rolling_mean 3 (snd <$> weekly)).

Definition compute_weekly_trend
    (to_datetime_series : list time_cell → py_exn + list (option Z))
    (data : list incident) : py_exn + list bucket :=
  match to_datetime_series (Open_Time__ <$> data) with
  | inl e => inl e
  | inr times =>
      let weeks := (λ t : option Z, week_start <$> t) <$> times in
      inr (trend_of_sizes (groupby_size weeks))
  end.

End Trend.

(** ** [detect_priority_inconsistencies] *)

Module Consistency.

Record inconsistency : Type := {
  inc_Incident_ID : string;
  Impact : Z;
  Urgency : Z;
  Priority : Z;
  Description : string;
  Detected_At : option Z;
  Severity : severity
}.

(** The two rule patterns of the [if]. *)
Definition flagged (impact urgency priority : Z) : bool :=
  ((impact =? 3) && (urgency =? 1) && negb (priority =? 1))
  || ((impact =? 1) && (urgency =? 3) && negb (priority =? 3)).

(** The conditional expression that grades a flagged row. *)
Definition severity_of (impact urgency : Z) : severity :=
  if (impact =? 3) && (urgency =? 3) then High
  else if ((impact =? 3) && (urgency =? 2)) || ((impact =? 2) && (urgency =? 3))
       then Medium
       else Low.

(** [detected_at]: set only when [pd.notna] holds of the cell and it
    parses; a cell that is not missing parses to a Timestamp or raises. *)
Definition detected_at (c : time_cell) : option Z :=
  if time_notna c then
    match to_datetime c with
    | inr (At s) => Some s
    | inr _ => None
    | inl _ => None
    end
  else None.

Definition record_of (row : incident) : inconsistency :=
  {| inc_Incident_ID := Incident_ID row;
     Impact := Impact_enc row;
     Urgency := Urgency_enc row;
     Priority := Priority_enc row;
     Description :=
       "Potential misalignment between Impact, Urgency, and Priority.";
     Detected_At := detected_at (Open_Time__ row);
     Severity := severity_of (Impact_enc row) (Urgency_enc row) |}.

(** One iteration of the loop over the rows. *)
Definition step (inconsistencies : list inconsistency) (row : incident)
  : list inconsistency :=
  if flagged (Impact_enc row) (Urgency_enc row) (Priority_enc row)
  then inconsistencies ++ [record_of row]
  else inconsistencies.

(** The loop of lines 155 to 180. *)
Definition scan (data : list incident) : list inconsistency :=
  foldl step [] data.

(** The argument of the second debug [print]:
    [df.iloc[1].to_dict() if not df.empty else "Empty DataFrame"].
    [iloc[1]] is the row at position 1 and raises when there is none. *)
Definition debug_first_row (data : list incident) : py_exn + unit :=
  match data with
  | [] => inr tt
  | _ :: _ =>
      match data !! 1%nat with
      | Some _ => inr tt
      | None => inl IndexError
      end
  end.

Definition detect_priority_inconsistencies (data : list incident)
  : py_exn + list inconsistency :=
  match debug_first_row data with
  | inl e => inl e
  | inr _ => inr (scan data)
  end.

End Consistency.

(** ** Vocabulary of the statements *)

Module Spec.

(** No character of the string is an underscore. *)
Fixpoint underscore_free (s : string) : Prop :=
  match s with
  | EmptyString => True
  | String a rest => a ≠ "_"%char ∧ underscore_free rest
  end.

(** The dictionary the caller passes has an item whose key, once turned
    into a string, is the key of the pair. *)
Definition pair_in_table (sla : list (SLA.sla_key * Timedelta.t))
    (impact urgency : Z) : Prop :=
  ∃ k d, (k, d) ∈ sla ∧ SLA.str_key k = SLA.fmt_key impact urgency.

(** The table entry for the pair of a row. *)
Definition sla_lookup (tbl : gmap string Timedelta.t) (row : incident)
  : option Timedelta.t :=
  tbl !! SLA.fmt_key (Impact_enc row) (Urgency_enc row).

(** Exempt from breach evaluation: no entry for the pair, or no handle time,
    or an open time that is missing or unreadable. *)
Definition exempt (tbl : gmap string Timedelta.t) (row : incident) : Prop :=
  sla_lookup tbl row = None
  ∨ Handle_Time_hrs row = None
  ∨ instant_of (Open_Time__ row) = None.


(** The handle time, as a duration, is longer than the entry for the pair. *)
Definition exceeds (tbl : gmap string Timedelta.t) (row : incident) : Prop :=
  ∃ h d, Handle_Time_hrs row = Some h ∧ sla_lookup tbl row = Some d
         ∧ d < Timedelta.of_hours h.

(** What one row contributes to the indicator list. *)
Definition row_indicator (tbl : gmap string Timedelta.t) (row : incident)
  : option SLA.indicator :=
  match SLA.guard (Handle_Time_hrs row)
                  (SLA.parse_open_time (Open_Time__ row))
                  (sla_lookup tbl row) with
  | Some (h, ot, d) =>
      Some {| SLA.ind_Incident_ID := Incident_ID row;
              SLA.breach := Timedelta.gtb (Timedelta.of_hours h) d;
              SLA.ind_Breach_Time := SLA.isoformat_or_none ot |}
  | None => None
  end.

(** What one row contributes to the detail list. *)
Definition row_detail (tbl : gmap string Timedelta.t) (row : incident)
  : option SLA.breach_detail :=
  match SLA.guard (Handle_Time_hrs row)
                  (SLA.parse_open_time (Open_Time__ row))
                  (sla_lookup tbl row) with
  | Some (h, ot, d) =>
      if Timedelta.gtb (Timedelta.of_hours h) d
      then Some (SLA.detail_of row h ot d)
      else None
  | None => None
  end.

(** The row is counted in [total_sla_breaches]. *)
Definition counted (tbl : gmap string Timedelta.t) (row : incident) : bool :=
  bool_decide (is_Some (row_detail tbl row)).

(** The row has an entry in the indicator list. *)
Definition evaluated (tbl : gmap string Timedelta.t) (row : incident) : bool :=
  bool_decide (is_Some (row_indicator tbl row)).

(** The ratio of handle time to allowed time of a detail record, before
    it is rounded for the [Breach_Ratio] field. *)
Definition ratio_of (d : SLA.breach_detail) : Num.xfloat :=
  SLA.breach_ratio (SLA.bd_Handle_Time_hrs d) (SLA.SLA_Duration_hrs d).

Definition xeq (x : Num.xfloat) (c : Q) : Prop :=
  match x with
  | Num.Fin q => (q == c)%Q
  | Num.PosInf => False
  end.

Definition xge (x : Num.xfloat) (c : Q) : Prop :=
  match x with
  | Num.Fin q => (c <= q)%Q
  | Num.PosInf => True
  end.

(** The two rule patterns of the consistency check. *)
Definition rule_pattern (row : incident) : Prop :=
  (Impact_enc row = 3 ∧ Urgency_enc row = 1 ∧ Priority_enc row ≠ 1)
  ∨ (Impact_enc row = 1 ∧ Urgency_enc row = 3 ∧ Priority_enc row ≠ 3).

Global Instance rule_pattern_dec row : Decision (rule_pattern row).
Proof. unfold rule_pattern. apply _. Defined.

(** The week a row falls in, if its open time is a timestamp. *)
Definition week_of (row : incident) : option Z :=
  Trend.week_start <$> instant_of (Open_Time__ row).

(** The size a table of weekly sizes records for week [w]. *)
Definition size_at (sizes : list (Z * Z)) (w : Z) : Z :=
  foldr (λ kc acc, if kc.1 =? w then kc.2 + acc else acc) 0 sizes.

End Spec.

(** ** Sample snapshots *)

Module Samples.

Definition row (id : string) (priority impact urgency : Z)
    (handle : option Q) (open : time_cell) : incident :=
  {| Incident_ID := id; Priority_enc := priority; Impact_enc := impact;
     Urgency_enc := urgency; Handle_Time_hrs := handle; Open_Time__ := open |}.

(** Monday 2024-01-01 00:00:00 UTC, and the instant [k] weeks later. *)
Definition monday : Z := 1704067200.
Definition in_week (k : Z) : time_cell := TimeStamp (monday + k * 604800).

(** Impact 3, urgency 1 (one hour allowed by default), handled in 1.5 h. *)
Definition row_ratio_15 : incident :=
  row "INC-15" 2 3 1 (Some (3 # 2)%Q) (in_week 0).

(** The same pair handled in 1.001 h. *)
Definition row_ratio_1001 : incident :=
  row "INC-1001" 2 3 1 (Some (1001 # 1000)%Q) (in_week 0).

(** A pair the default table does not have. *)
Definition row_exempt : incident :=
  row "INC-00" 0 0 0 (Some 9%Q) (in_week 0).

(** Impact 3, urgency 1, handled in three hours; the open time is missing
    ([NaT]). *)
Definition row_nat : incident :=
  row "INC-NAT" 2 3 1 (Some 3%Q) TimeNaT.

(** A table that allows zero hours for the pair (1, 1), and a row of that
    pair handled in two hours. *)
Definition zero_table : list (SLA.sla_key * Timedelta.t) :=
  [(SLA.KStr "1_1", Timedelta.of_hours 0)].

Definition row_zero_sla : incident :=
  row "INC-Z" 1 1 1 (Some 2%Q) (in_week 0).

(** Impact 3, urgency 1, priority 2: the inconsistency scenario. *)
Definition row_312 : incident :=
  row "INC-312" 2 3 1 (Some 1%Q) (in_week 0).

(** Impact 2, urgency 2, priority 2: consistent. *)
Definition row_222 : incident :=
  row "INC-222" 2 2 2 (Some 1%Q) TimeNone.

(** Four consecutive weeks with 10, 12, 11 and 40 incidents. *)
Definition four_weeks : list incident :=
  replicate 10 (row "W1" 2 2 2 None (in_week 0))
  ++ replicate 12 (row "W2" 2 2 2 None (in_week 1))
  ++ replicate 11 (row "W3" 2 2 2 None (in_week 2))
  ++ replicate 40 (row "W4" 2 2 2 None (in_week 3)).

End Samples.

(** ** [decode_categories] *)

Module Decode.

(** A key of a JSON object as [int] sees it. *)
Inductive json_key : Type :=
  | KeyInt (code : Z)   (* a key [int] reads as this integer *)
  | KeyNotInt.          (* a key on which [int] raises *)

Inductive exn : Type := ValueError.

Definition py_int (k : json_key) : exn + Z :=
  match k with
  | KeyInt z => inr z
  | KeyNotInt => inl ValueError
  end.

(** [{int(k): str(v) for k, v in items}]: filled item by item, a later item
    replacing an earlier one of the same integer. *)
Fixpoint int_keyed (items : list (json_key * string)) (m : gmap Z string)
  : exn + gmap Z string :=
  match items with
  | [] => inr m
  | (k, v) :: rest =>
      match py_int k with
      | inl e => inl e
      | inr z => int_keyed rest (<[z := v]> m)
      end
  end.

(** [series.map(mapping)]: a code the mapping lacks, or a missing code,
    gives a missing value. *)
Definition series_map (m : gmap Z string) (codes : list (option Z))
  : list (option string) :=
  (λ c : option Z, c ≫= (m !!.)) <$> codes.

(** [series.fillna("Unknown")]. *)
Definition fillna (labels : list (option string)) : list string :=
  default "Unknown" <$> labels.

(** The two code columns of a row. *)
Record row : Type := {
  CI_Cat_enc : option Z;
  CI_Subcat_enc : option Z
}.

(** The two columns the call adds to the frame. *)
Record decoded : Type := {
  CI_Cat : list string;
  CI_Subcat : list string
}.

Definition decode_categories (data : list row)
    (mappings : gmap string (list (json_key * string))) : exn + decoded :=
  match int_keyed (default [] (mappings !! "CI_Cat")) ∅ with
  | inl e => inl e
  | inr cat_mapping =>
      match int_keyed (default [] (mappings !! "CI_Subcat")) ∅ with
      | inl e => inl e
      | inr subcat_mapping =>
          inr {| CI_Cat := fillna (series_map cat_mapping (CI_Cat_enc <$> data));
                 CI_Subcat :=
                   fillna (series_map subcat_mapping (CI_Subcat_enc <$> data)) |}
      end
  end.

End Decode.

(** ** [get_top_n] *)

Module TopN.

(** One more occurrence of [v] in a table of counts kept in order of first
    appearance. *)
Fixpoint tally (v : Z) (counts : list (Z * nat)) : list (Z * nat) :=
  match counts with
  | [] => [(v, 1%nat)]
  | (k, c) :: rest =>
      if k =? v then (k, S c) :: rest else (k, c) :: tally v rest
  end.

(** The distinct values of the column with their counts, before they are
    sorted; missing values are not counted. *)
Definition count_values (column : list (option Z)) : list (Z * nat) :=
  foldl (λ counts o, match o with Some v => tally v counts | None => counts end)
        [] column.

(** [frame.head(n)]: the first [n] rows, or all but the last [-n]. *)
Definition head {A} (n : Z) (l : list A) : list A :=
  if 0 <=? n then take (Z.to_nat n) l
  else take (length l - Z.to_nat (- n))%nat l.

(** [a] may stand before [b] when sorted by count, largest first. *)
Definition by_count (a b : Z * nat) : Prop := (b.2 <= a.2)%nat.

Global Instance by_count_dec a b : Decision (by_count a b).
Proof. unfold by_count. apply _. Defined.

(** What the sort by count is relied on for; the order it leaves among equal
    counts is its own. *)
Definition sorts_by_count (sort_values : list (Z * nat) → list (Z * nat))
  : Prop :=
  ∀ l, sort_values l ≡ₚ l ∧ StronglySorted by_count (sort_values l).

(** [df[column].value_counts()]. *)
Definition value_counts (sort_values : list (Z * nat) → list (Z * nat))
    (column : list (option Z)) : list (Z * nat) :=
  sort_values (count_values column).

(** [df[column].value_counts().head(n).to_dict()], as the items of the
    dictionary in their order. *)
Definition get_top_n (sort_values : list (Z * nat) → list (Z * nat))
    (column : list (option Z)) (n : Z) : list (Z * nat) :=
  head n (value_counts sort_values column).

(** A sort that keeps equal counts in their order. *)
Definition stable_sort (l : list (Z * nat)) : list (Z * nat) :=
  merge_sort by_count l.

End TopN.

(** ** [explain_spike_weeks] and its caller *)

Module Explain.

(** [sep.join(parts)]. *)
Fixpoint join (sep : string) (parts : list string) : string :=
  match parts with
  | [] => ""
  | [x] => x
  | x :: rest => x +:+ sep +:+ join sep rest
  end.

Definition no_spikes : string := "No spikes were detected in incident volume.".

Definition explain_spike_weeks (spike_weeks : list string) : string :=
  match spike_weeks with
  | [] => no_spikes
  | _ :: _ =>
      "Spikes were detected during the following weeks: "
      +:+ join ", " spike_weeks +:+ "."
  end.

(** [CategorizationAgent.run]: the weeks flagged in the trend, each as the
    text [str] gives for its start, and the sentence about them. *)
Definition spike_weeks (str : Z → string) (weekly : list Trend.bucket)
  : list string :=
  (λ entry, str (Trend.week entry))
    <$> filter (λ entry, Trend.spike entry = true) weekly.

Definition spike_explanation
    (to_datetime_series : list time_cell → py_exn + list (option Z))
    (str : Z → string) (data : list incident) : py_exn + string :=
  match Trend.compute_weekly_trend to_datetime_series data with
  | inl e => inl e
  | inr weekly => inr (explain_spike_weeks (spike_weeks str weekly))
  end.

End Explain.

(** ** [SLAPriorityAgent] *)

Module Agent.

(** The [if]/[elif] chain of the constructor: the hours of a pair, [None]
    outside the pairs it names. *)
Definition default_hours (impact urgency : Z) : option Q :=
  if (bool_decide (impact ∈ [1; 2; 3]) && bool_decide (urgency ∈ [1; 2; 3]))
  then
    if bool_decide ((impact, urgency) = (3, 3)) then Some 4%Q
    else if bool_decide ((impact, urgency) = (3, 2)) then Some 2%Q
    else if bool_decide ((impact, urgency) = (3, 1)) then Some 1%Q
    else if bool_decide ((impact, urgency) = (2, 3)) then Some 2%Q
    else if bool_decide ((impact, urgency) = (2, 2)) then Some 1%Q
    else if bool_decide ((impact, urgency) = (2, 1)) then Some (1 # 2)%Q
    else if bool_decide ((impact, urgency) = (1, 3)) then Some 1%Q
    else if bool_decide ((impact, urgency) = (1, 2)) then Some (1 # 2)%Q
    else if bool_decide ((impact, urgency) = (1, 1)) then Some (1 # 4)%Q
    else None
  else None.

(** [range(0, 6)]. *)
Definition range6 : list Z := [0; 1; 2; 3; 4; 5].

(** The two nested loops that fill [default_sla]. *)
Definition default_sla : list (SLA.sla_key * option Q) :=
  impact ← range6;
  urgency ← range6;
  [(SLA.KTuple impact urgency, default_hours impact urgency)].

(** [self.sla_definitions]: the table given, or the default one when none
    or an empty one is given, without its [None] values, as durations. *)
Definition init (sla_definitions : list (SLA.sla_key * option Q))
  : list (SLA.sla_key * Timedelta.t) :=
  let chosen :=
    match sla_definitions with
    | [] => default_sla
    | _ :: _ => sla_definitions
    end in
  omap (λ kv : SLA.sla_key * option Q,
          (λ v, (kv.1, Timedelta.of_hours v)) <$> kv.2) chosen.

(** [str(k)] for a key of the table; a tuple prints as ["(i, u)"]. *)
Definition py_str (k : SLA.sla_key) : string :=
  match k with
  | SLA.KTuple i u => "(" +:+ pretty i +:+ ", " +:+ pretty u +:+ ")"
  | SLA.KStr s => s
  end.

(** The table [run] hands to the tool: every key replaced by its [str]. *)
Definition run_str_sla_definitions
    (self_sla_definitions : list (SLA.sla_key * Timedelta.t))
  : list (SLA.sla_key * Timedelta.t) :=
  (λ kv : SLA.sla_key * Timedelta.t, (SLA.KStr (py_str kv.1), kv.2))
    <$> self_sla_definitions.

(** The ["sla_breach"] and ["inconsistencies"] entries of the tool chain. *)
Definition run_sla_breach
    (self_sla_definitions : list (SLA.sla_key * Timedelta.t))
    (data : list incident) : SLA.report :=
  SLA.check_sla_breach data (run_str_sla_definitions self_sla_definitions).

End Agent.

(** ** More vocabulary *)

Module Props.

(** No character of the string is [c]. *)
Fixpoint char_free (c : ascii) (s : string) : Prop :=
  match s with
  | EmptyString => True
  | String a rest => a ≠ c ∧ char_free c rest
  end.

(** How grave a tier is. *)
Definition rank (s : severity) : nat :=
  match s with
  | Low => 0
  | Medium => 1
  | High => 2
  | Critical => 3
  end.

(** The label a code is to get from the items of a mapping: ["Unknown"] for
    a missing code and for a code no item has, else the label of the last
    item that has it. *)
Inductive label_for (items : list (Decode.json_key * string))
  : option Z → string → Prop :=
  | label_missing : label_for items None "Unknown"
  | label_unmapped (z : Z) :
      (∀ v, (Decode.KeyInt z, v) ∉ items) →
      label_for items (Some z) "Unknown"
  | label_last (z : Z) (v : string)
        (l1 l2 : list (Decode.json_key * string)) :
      items = l1 ++ (Decode.KeyInt z, v) :: l2 →
      (∀ v', (Decode.KeyInt z, v') ∉ l2) →
      label_for items (Some z) v.

(** The count a table of counts records for value [v]. *)
Definition count_of (counts : list (Z * nat)) (v : Z) : nat :=
  foldr (λ kc acc, if kc.1 =? v then (kc.2 + acc)%nat else acc) 0%nat counts.

(** How often the value occurs in the column. *)
Definition occurrences (v : Z) (column : list (option Z)) : nat :=
  length (filter (λ o, o = Some v) column).

End Props.

(** * Properties *)

(** ** Arithmetic of the model *)

Section NumFacts.

Local Open Scope Q_scope.

Lemma Qltb_lt (a b : Q) : Num.Qltb a b = true ↔ a < b.
Proof. unfold Num.Qltb, Qlt. apply Z.ltb_lt. Qed.





Lemma xgt_weaken (x : Num.xfloat) (c c' : Q) : c' <= c → Num.xgt x c → Num.xgt x c'.
Proof. destruct x; simpl; [apply Qle_lt_trans | tauto]. Qed.


(** The rounded value is never below the floor, and is above it only from
    the half on. *)
Lemma round_half_even_floor (q : Q) :
  Num.round_half_even q = Qfloor q
  ∨ (Num.round_half_even q = (Qfloor q + 1)%Z
     ∧ (QDen q <= 2 * (Qnum q mod QDen q))%Z).
Proof.
  unfold Num.round_half_even.
  destruct (Z.compare_spec (2 * (Qnum q mod QDen q)) (QDen q)) as [E | L | G].
  - destruct (Z.even (Qfloor q)); [left | right]; auto with zarith.
  - now left.
  - right. split; [reflexivity | lia].
Qed.

(** Rounding is monotone against an integer from below... *)
Lemma round_half_even_ge (q : Q) (n : Z) :
  inject_Z n <= q → (n <= Num.round_half_even q)%Z.
Proof.
  intros H. apply Qfloor_resp_le in H. rewrite Qfloor_Z in H.
  destruct (round_half_even_floor q) as [-> | [-> _]]; lia.
Qed.

(** ... and a rounded value above an integer comes from a value above it. *)
Lemma round_half_even_gt (q : Q) (n : Z) :
  (n < Num.round_half_even q)%Z → inject_Z n < q.
Proof.
  intros H.
  destruct (round_half_even_floor q) as [E | [E Hhalf]]; rewrite E in H.
  - apply Qlt_le_trans with (inject_Z (Qfloor q)); [| apply Qfloor_le].
    rewrite <- Zlt_Qlt. exact H.
  - destruct q as [a d]. unfold Qfloor in H. simpl in Hhalf.
    unfold Qlt, inject_Z. simpl.
    pose proof (Z.div_mod a (Z.pos d) ltac:(lia)) as Hdm.
    pose proof (Z.mod_pos_bound a (Z.pos d) ltac:(lia)) as Hb.
    nia.
Qed.

End NumFacts.

(** ** Keys of the SLA table *)

Section KeyFacts.

Lemma pretty_N_go_underscore_free (x : N) (s : string) :
  Spec.underscore_free s → Spec.underscore_free (pretty_N_go x s).
Proof.
  revert s. induction (N.lt_wf_0 x) as [x _ IH]; intros s Hs.
  destruct (N.eq_dec x 0%N) as [-> | Hx].
  - rewrite pretty_N_go_0. exact Hs.
  - rewrite pretty_N_go_step by lia. apply IH.
    + apply N.div_lt; lia.
    + split; [| exact Hs]. unfold pretty_N_char.
      repeat case_match; discriminate.
Qed.

Lemma pretty_Z_underscore_free (z : Z) : Spec.underscore_free (pretty z).
Proof.
  destruct z as [| p | p]; unfold pretty, pretty_Z.
  - simpl. split; [discriminate | exact I].
  - unfold pretty, pretty_positive, pretty, pretty_N.
    case_decide; [discriminate |].
    apply pretty_N_go_underscore_free. exact I.
  - split; [discriminate |].
    unfold pretty, pretty_positive, pretty, pretty_N.
    case_decide; [discriminate |].
    apply pretty_N_go_underscore_free. exact I.
Qed.

(** Two strings cut at their first underscore. *)
Lemma split_at_underscore (s1 s2 t1 t2 : string) :
  Spec.underscore_free s1 → Spec.underscore_free s2 →
  s1 +:+ String "_" t1 = s2 +:+ String "_" t2 → s1 = s2 ∧ t1 = t2.
Proof.
  revert s2. induction s1 as [| a s1 IH]; intros [| b s2]; simpl.
  - intros _ _ [= ->]. auto.
  - intros _ [Hb _] [= <- _]. congruence.
  - intros [Ha _] _ [= -> _]. congruence.
  - intros [_ H1] [_ H2] [= -> Heq].
    destruct (IH s2 H1 H2 Heq) as [-> ->]. auto.
Qed.

(** The key of a pair determines the pair. *)
Lemma fmt_key_inj (i u i' u' : Z) :
  SLA.fmt_key i u = SLA.fmt_key i' u' → i = i' ∧ u = u'.
Proof.
  unfold SLA.fmt_key. intros Heq.
  apply split_at_underscore in Heq as [Hi Hu];
    try apply pretty_Z_underscore_free.
  split; eapply (inj pretty); eassumption.
Qed.

(** A key no item of the dictionary has is missing from the re-keyed
    table; if an item has it, the table has an entry. *)
Lemma str_sla_definitions_from (sla : list (SLA.sla_key * Timedelta.t))
    (m : gmap string Timedelta.t) (key : string) :
  (∀ k d, (k, d) ∈ sla → SLA.str_key k ≠ key) →
  foldl (λ m kv, <[SLA.str_key kv.1 := kv.2]> m) m sla !! key = m !! key.
Proof.
  revert m. induction sla as [| [k d] sla IH]; intros m Hno; [reflexivity |].
  simpl. rewrite IH.
  - apply lookup_insert_ne. apply (Hno k d). left.
  - intros k' d' Hin. apply (Hno k' d'). right. exact Hin.
Qed.

Lemma str_sla_definitions_some (sla : list (SLA.sla_key * Timedelta.t))
    (m : gmap string Timedelta.t) (key : string) :
  is_Some (m !! key) ∨ (∃ k d, (k, d) ∈ sla ∧ SLA.str_key k = key) →
  is_Some (foldl (λ m kv, <[SLA.str_key kv.1 := kv.2]> m) m sla !! key).
Proof.
  revert m. induction sla as [| [k d] sla IH]; intros m H; simpl.
  - destruct H as [H | (k & d & Hin & _)]; [exact H | inversion Hin].
  - apply IH. destruct H as [H | (k' & d' & Hin & Hkey)].
    + left. rewrite lookup_insert_is_Some. destruct (decide (SLA.str_key k = key));
        auto.
    + apply elem_of_cons in Hin as [[= -> ->] | Hin].
      * left. rewrite Hkey, lookup_insert_eq. eauto.
      * right. eauto.
Qed.

Lemma str_sla_definitions_None (sla : list (SLA.sla_key * Timedelta.t))
    (i u : Z) :
  SLA.str_sla_definitions sla !! SLA.fmt_key i u = None
  ↔ ¬ Spec.pair_in_table sla i u.
Proof.
  unfold SLA.str_sla_definitions, Spec.pair_in_table. split.
  - intros Hnone Hex.
    destruct (str_sla_definitions_some sla ∅ (SLA.fmt_key i u)) as [d Hd];
      [right; exact Hex | congruence].
  - intros Hno. rewrite str_sla_definitions_from; [apply lookup_empty |].
    intros k d Hin Hkey. apply Hno. eauto.
Qed.

(** For a dictionary keyed by tuples, the pair has an entry iff the tuple is
    a key. *)
Lemma pair_in_table_tuples (sla : list (SLA.sla_key * Timedelta.t)) (i u : Z) :
  (∀ k d, (k, d) ∈ sla → ∃ i' u', k = SLA.KTuple i' u') →
  Spec.pair_in_table sla i u ↔ ∃ d, (SLA.KTuple i u, d) ∈ sla.
Proof.
  intros Htuples. unfold Spec.pair_in_table. split.
  - intros (k & d & Hin & Hkey).
    destruct (Htuples k d Hin) as (i' & u' & ->). simpl in Hkey.
    apply fmt_key_inj in Hkey as [-> ->]. eauto.
  - intros (d & Hin). exists (SLA.KTuple i u), d. auto.
Qed.

End KeyFacts.

(** ** The loop of [check_sla_breach] in closed form *)

Section SLAFacts.

Variable tbl : gmap string Timedelta.t.

Lemma step_unfold (st : SLA.loop_state) (row : incident) :
  SLA.step tbl st row =
  {| SLA.st_breaches :=
       SLA.st_breaches st ++ option_list (Spec.row_indicator tbl row);
     SLA.st_details :=
       SLA.st_details st ++ option_list (Spec.row_detail tbl row);
     SLA.st_total :=
       SLA.st_total st + length (option_list (Spec.row_detail tbl row)) |}.
Proof.
  unfold SLA.step, Spec.row_indicator, Spec.row_detail, Spec.sla_lookup.
  destruct (SLA.guard _ _ _) as [[[h ot] d]|]; simpl.
  - destruct (Timedelta.gtb _ _); simpl.
    + f_equal. lia.
    + rewrite app_nil_r. f_equal. lia.
  - rewrite !app_nil_r. destruct st; simpl. f_equal. lia.
Qed.

Lemma loop_unfold (data : list incident) (st : SLA.loop_state) :
  foldl (SLA.step tbl) st data =
  {| SLA.st_breaches := SLA.st_breaches st ++ omap (Spec.row_indicator tbl) data;
     SLA.st_details := SLA.st_details st ++ omap (Spec.row_detail tbl) data;
     SLA.st_total :=
       SLA.st_total st + length (omap (Spec.row_detail tbl) data) |}.
Proof.
  revert st. induction data as [| row data IH]; intros st; simpl.
  - rewrite !app_nil_r. destruct st; simpl. f_equal. lia.
  - rewrite IH, step_unfold. simpl.
    destruct (Spec.row_detail tbl row), (Spec.row_indicator tbl row);
      simpl; rewrite <- ?app_assoc, ?app_nil_r; simpl; f_equal;
      unfold omap; lia.
Qed.

End SLAFacts.

Section SLAReport.

Variable data : list incident.
Variable sla_definitions : list (SLA.sla_key * Timedelta.t).

Let tbl := SLA.str_sla_definitions sla_definitions.
Let r := SLA.check_sla_breach data sla_definitions.

Lemma report_breaches : SLA.breaches r = omap (Spec.row_indicator tbl) data.
Proof. unfold r, SLA.check_sla_breach. rewrite loop_unfold. reflexivity. Qed.

Lemma report_details : SLA.breached_details r = omap (Spec.row_detail tbl) data.
Proof. unfold r, SLA.check_sla_breach. rewrite loop_unfold. reflexivity. Qed.

Lemma report_total_breaches :
  SLA.total_sla_breaches r = length (omap (Spec.row_detail tbl) data).
Proof. unfold r, SLA.check_sla_breach. rewrite loop_unfold. reflexivity. Qed.

Lemma report_percentage :
  SLA.sla_breach_percentage r =
  SLA.percentage (SLA.total_sla_breaches r) (length data).
Proof. reflexivity. Qed.

End SLAReport.

Lemma length_omap_filter {A B} (f : A → option B) (l : list A) :
  length (omap f l) = length (filter (λ x, bool_decide (is_Some (f x))) l).
Proof.
  induction l as [| x l IH]; [reflexivity |].
  rewrite filter_cons. simpl. destruct (f x) as [y|] eqn:E.
  - rewrite decide_True; [simpl; unfold omap in IH; lia |].
    rewrite bool_decide_eq_true_2; [exact I | eauto].
  - rewrite decide_False; [exact IH |].
    rewrite bool_decide_eq_false_2; [tauto | intros [? ?]; discriminate].
Qed.

Lemma length_filter_lt {A} (P : A → Prop) `{∀ x, Decision (P x)} (l : list A) :
  (length (filter P l) < length l)%nat ↔ ∃ x, x ∈ l ∧ ¬ P x.
Proof.
  induction l as [| x l IH].
  - simpl. split; [lia | intros (x & Hx & _); inversion Hx].
  - rewrite filter_cons. pose proof (length_filter P l) as Hle.
    destruct (decide (P x)) as [HP | HP]; simpl.
    + rewrite <- Nat.succ_lt_mono, IH. split.
      * intros (y & Hy & HPy). exists y. split; [now right | exact HPy].
      * intros (y & Hy & HPy). apply elem_of_cons in Hy as [-> | Hy];
          [contradiction | eauto].
    + split; [| lia]. intros _. exists x. split; [now left | exact HP].
Qed.

(** What the guard lets through, read back. *)
Lemma guard_Some h0 ot0 d0 (oh : option Q) (oo : datetime)
    (od : option Timedelta.t) :
  SLA.guard oh oo od = Some (h0, ot0, d0)
  ↔ oh = Some h0 ∧ oo = ot0 ∧ SLA.truthy ot0 = true ∧ od = Some d0 ∧ d0 ≠ 0.
Proof.
  unfold SLA.guard, Timedelta.truthy.
  destruct oh as [h|], od as [d|];
    try (split; [discriminate | intros (? & ? & ? & ? & ?); discriminate]).
  destruct (SLA.truthy oo) eqn:T, (Z.eqb_spec d 0) as [E | E]; simpl.
  - split; [discriminate |]. intros (_ & _ & _ & Hd & Hne). congruence.
  - split.
    + intros [= -> -> ->]. auto.
    + intros ([= ->] & -> & _ & [= ->] & _). reflexivity.
  - split; [discriminate |]. intros (_ & -> & T' & _). congruence.
  - split; [discriminate |]. intros (_ & -> & T' & _). congruence.
Qed.

Lemma isoformat_truthy (ot : datetime) :
  SLA.truthy ot = true → SLA.isoformat_or_none ot = ot.
Proof. unfold SLA.isoformat_or_none. now intros ->. Qed.

Lemma row_detail_Some tbl row bd :
  Spec.row_detail tbl row = Some bd
  ↔ ∃ h ot d, Handle_Time_hrs row = Some h
      ∧ SLA.parse_open_time (Open_Time__ row) = ot
      ∧ SLA.truthy ot = true
      ∧ Spec.sla_lookup tbl row = Some d ∧ d ≠ 0
      ∧ d < Timedelta.of_hours h
      ∧ bd = SLA.detail_of row h ot d.
Proof.
  unfold Spec.row_detail. split.
  - destruct (SLA.guard _ _ _) as [[[h ot] d]|] eqn:G; [| discriminate].
    apply guard_Some in G as (Hh & Ho & Ht & Hd & Hne).
    unfold Timedelta.gtb. destruct (Z.ltb_spec d (Timedelta.of_hours h));
      [| discriminate].
    intros [= <-]. exists h, ot, d. auto 10.
  - intros (h & ot & d & Hh & Ho & Ht & Hd & Hne & Hlt & ->).
    assert (G : SLA.guard (Handle_Time_hrs row)
                  (SLA.parse_open_time (Open_Time__ row))
                  (Spec.sla_lookup tbl row) = Some (h, ot, d))
      by (apply guard_Some; auto).
    rewrite G. unfold Timedelta.gtb.
    destruct (Z.ltb_spec d (Timedelta.of_hours h)); [reflexivity | lia].
Qed.

Lemma row_indicator_Some tbl row ind :
  Spec.row_indicator tbl row = Some ind
  ↔ ∃ h ot d, Handle_Time_hrs row = Some h
      ∧ SLA.parse_open_time (Open_Time__ row) = ot
      ∧ SLA.truthy ot = true
      ∧ Spec.sla_lookup tbl row = Some d ∧ d ≠ 0
      ∧ ind = {| SLA.ind_Incident_ID := Incident_ID row;
                 SLA.breach := Timedelta.gtb (Timedelta.of_hours h) d;
                 SLA.ind_Breach_Time := SLA.isoformat_or_none ot |}.
Proof.
  unfold Spec.row_indicator. split.
  - destruct (SLA.guard _ _ _) as [[[h ot] d]|] eqn:G; [| discriminate].
    apply guard_Some in G as (Hh & Ho & Ht & Hd & Hne).
    intros [= <-]. exists h, ot, d. auto 10.
  - intros (h & ot & d & Hh & Ho & Ht & Hd & Hne & ->).
    assert (G : SLA.guard (Handle_Time_hrs row)
                  (SLA.parse_open_time (Open_Time__ row))
                  (Spec.sla_lookup tbl row) = Some (h, ot, d))
      by (apply guard_Some; auto).
    rewrite G. reflexivity.
Qed.

(** A record of the detail list comes from a row of the snapshot. *)
Lemma detail_origin data sla bd :
  bd ∈ SLA.breached_details (SLA.check_sla_breach data sla)
  → ∃ row h ot d, row ∈ data
      ∧ Handle_Time_hrs row = Some h
      ∧ Spec.sla_lookup (SLA.str_sla_definitions sla) row = Some d
      ∧ d ≠ 0 ∧ d < Timedelta.of_hours h
      ∧ bd = SLA.detail_of row h ot d.
Proof.
  rewrite report_details, list_elem_of_omap.
  intros (row & Hin & Hd). apply row_detail_Some in Hd
    as (h & ot & d & Hh & _ & _ & Hl & Hne & Hlt & ->).
  exists row, h, ot, d. auto 10.
Qed.

(** ** Severity tiers and breach ratios *)

Section Ratio.

Local Open Scope Q_scope.


Lemma xeq_xle (r : Num.xfloat) (c : Q) : Spec.xeq r c → Num.xle r c.
Proof. destruct r; simpl; [| tauto]. intros ->. apply Qle_refl. Qed.

Lemma xeq_xgt (r : Num.xfloat) (c c' : Q) :
  c' < c → Spec.xeq r c → Num.xgt r c'.
Proof. destruct r; simpl; [| tauto]. intros Hlt ->. exact Hlt. Qed.

(** The allowed time in hours, from the microseconds of the duration. *)
Lemma sla_hours_eq (d : Timedelta.t) :
  Timedelta.total_seconds d / 3600 == inject_Z d / 3600000000.
Proof. unfold Timedelta.total_seconds. field. Qed.

(** A handle time that is a longer duration than the allowed one is a larger
    number of hours, so the quotient is above one; a negative allowed time
    gives the infinite ratio. *)
Lemma breach_ratio_gt_1 (h : Q) (d : Timedelta.t) :
  (d < Timedelta.of_hours h)%Z →
  Num.xgt (SLA.breach_ratio h (Timedelta.total_seconds d / 3600)) 1.
Proof.
  intros Hlt. unfold SLA.breach_ratio.
  destruct (Num.Qltb 0 _) eqn:Epos; [| exact I].
  apply Qltb_lt in Epos. simpl.
  apply Qlt_shift_div_l; [exact Epos |].
  rewrite Qmult_1_l, sla_hours_eq.
  apply Qlt_shift_div_r; [reflexivity |].
  apply round_half_even_gt. exact Hlt.
Qed.

(** Rounding to two digits can reach one, and never goes below. *)
Lemma round2_ge_1 (r : Num.xfloat) : Num.xgt r 1 → Spec.xge (Num.round2 r) 1.
Proof.
  destruct r as [q |]; simpl; [| tauto]. intros Hq.
  apply Qle_shift_div_l; [reflexivity |].
  rewrite Qmult_1_l. change 100 with (inject_Z 100).
  rewrite <- Zle_Qle. apply round_half_even_ge.
  change (inject_Z 100) with (1 * 100).
  apply Qmult_le_compat_r; [apply Qlt_le_weak; exact Hq | discriminate].
Qed.

End Ratio.

(** ** Claims on [check_sla_breach] *)






(** The open time passes the guard unless it is [None] or unreadable. *)
Lemma truthy_open_time (row : incident) :
  SLA.truthy (SLA.parse_open_time (Open_Time__ row)) = true
  ↔ Open_Time__ row ≠ TimeNone ∧ Open_Time__ row ≠ TimeInvalid.
Proof.
  destruct (Open_Time__ row); simpl; intuition congruence.
Qed.

(** When a row is counted as a breach. *)
Lemma counted_true (tbl : gmap string Timedelta.t) (row : incident) :
  Spec.counted tbl row = true
  ↔ Spec.exceeds tbl row
    ∧ Spec.sla_lookup tbl row ≠ Some 0
    ∧ Open_Time__ row ≠ TimeNone ∧ Open_Time__ row ≠ TimeInvalid.
Proof.
  unfold Spec.counted. rewrite bool_decide_eq_true. split.
  - intros [bd Hbd]. apply row_detail_Some in Hbd
      as (h & ot & d & Hh & Ho & Ht & Hd & Hne & Hlt & _).
    split; [| split].
    + exists h, d. auto.
    + rewrite Hd. intros [= ->]. contradiction.
    + apply truthy_open_time. now rewrite Ho.
  - intros ((h & d & Hh & Hd & Hlt) & Hz & Hopen).
    exists (SLA.detail_of row h (SLA.parse_open_time (Open_Time__ row)) d).
    apply row_detail_Some. eexists h, _, d.
    split; [exact Hh |]. split; [reflexivity |].
    split; [apply truthy_open_time; exact Hopen |].
    split; [exact Hd |]. split; [intros ->; auto |]. auto.
Qed.

Lemma counted_absent (tbl : gmap string Timedelta.t) (row : incident) :
  Spec.sla_lookup tbl row = None → Spec.counted tbl row = false.
Proof.
  intros Hnone. destruct (Spec.counted tbl row) eqn:E; [| reflexivity].
  apply counted_true in E as ((h & d & _ & Hd & _) & _). congruence.
Qed.

Lemma percentage_cases (count total : nat) :
  (total = 0%nat → SLA.percentage count total = 0%Q)
  ∧ (total ≠ 0%nat →
     SLA.percentage count total =
     (inject_Z (Z.of_nat count) / inject_Z (Z.of_nat total) * 100)%Q).
Proof.
  unfold SLA.percentage. split.
  - intros ->. reflexivity.
  - intros Hne. destruct (Nat.ltb_spec 0 total); [reflexivity | lia].
Qed.

Lemma total_breaches_counted
    (data : list incident) (sla : list (SLA.sla_key * Timedelta.t)) :
  SLA.total_sla_breaches (SLA.check_sla_breach data sla) =
  length (filter (λ row, Spec.counted (SLA.str_sla_definitions sla) row = true)
            data).
Proof.
  rewrite report_total_breaches, length_omap_filter.
  unfold Spec.counted. f_equal. apply list_filter_iff. intros row.
  destruct (bool_decide _); split; auto; try discriminate; tauto.
Qed.

(** C2 (the code departs from the claim).  An incident of the pair (3, 1),
    which the default table allows one hour, handled in three hours, whose
    open time is missing ([NaT]), is exempt; yet the report counts it as a
    breach, with an indicator and a detail record whose breach time is
    ['NaT'], and gives a breach percentage of 100: the guard tests the open
    time by its truth value, and [NaT] is true. *)
Theorem C2_missing_open_time_is_counted :
  let tbl := SLA.str_sla_definitions SLA.default_sla in
  let r := SLA.check_sla_breach [Samples.row_nat] SLA.default_sla in
  Open_Time__ Samples.row_nat = TimeNaT
  ∧ Spec.exempt tbl Samples.row_nat
  ∧ SLA.total_incidents_analyzed r = 1%nat
  ∧ SLA.total_sla_breaches r = 1%nat
  ∧ SLA.breaches r =
      [{| SLA.ind_Incident_ID := "INC-NAT"; SLA.breach := true;
          SLA.ind_Breach_Time := NaT |}]
  ∧ (SLA.Breach_Time <$> SLA.breached_details r) = [NaT]
  ∧ (SLA.sla_breach_percentage r == 100)%Q.
Proof.
  cbv zeta. split; [reflexivity |]. split; [right; right; reflexivity |].
  vm_compute. repeat split.
Qed.

(** The same incident with its open time given is not exempt and is counted
    alike; with [None] for the open time it is left out. *)
Example open_time_scenarios :
  let with_open (c : time_cell) :=
    SLA.check_sla_breach [Samples.row "INC" 2 3 1 (Some 3%Q) c]
      SLA.default_sla in
  SLA.total_sla_breaches (with_open (Samples.in_week 0)) = 1%nat
  ∧ SLA.total_sla_breaches (with_open TimeNaT) = 1%nat
  ∧ SLA.total_sla_breaches (with_open TimeNone) = 0%nat
  ∧ SLA.total_sla_breaches (with_open TimeInvalid) = 0%nat.
Proof. vm_compute. repeat split. Qed.

(** X21.  The report counts every row passed in as analysed.  It counts as
    breaches exactly the rows whose handle time exceeds the allowed duration
    of their pair, whose allowed duration is not zero and whose open time is
    neither [None] nor unreadable, so a row whose pair has no entry in the
    table is never counted.  The percentage is breaches over rows times 100,
    and 0 for the empty snapshot; breaches never outnumber rows. *)
Theorem report_totals
    (data : list incident) (sla : list (SLA.sla_key * Timedelta.t)) :
  let tbl := SLA.str_sla_definitions sla in
  let r := SLA.check_sla_breach data sla in
  SLA.total_incidents_analyzed r = length data
  ∧ SLA.total_sla_breaches r =
      length (filter (λ row, Spec.counted tbl row = true) data)
  ∧ (∀ row, Spec.counted tbl row = true
            ↔ Spec.exceeds tbl row
              ∧ Spec.sla_lookup tbl row ≠ Some 0
              ∧ Open_Time__ row ≠ TimeNone
              ∧ Open_Time__ row ≠ TimeInvalid)
  ∧ (∀ row, ¬ Spec.pair_in_table sla (Impact_enc row) (Urgency_enc row) →
            Spec.exempt tbl row ∧ Spec.counted tbl row = false)
  ∧ (data ≠ [] →
     SLA.sla_breach_percentage r =
     (inject_Z (Z.of_nat (SLA.total_sla_breaches r))
      / inject_Z (Z.of_nat (SLA.total_incidents_analyzed r)) * 100)%Q)
  ∧ (data = [] → SLA.sla_breach_percentage r = 0%Q)
  ∧ (SLA.total_sla_breaches r ≤ SLA.total_incidents_analyzed r)%nat.
Proof.
  intros tbl r.
  pose proof (total_breaches_counted data sla) as Hcount.
  split; [reflexivity |]. split; [exact Hcount |].
  split; [apply counted_true |]. split.
  { intros row Hno. apply str_sla_definitions_None in Hno.
    split; [left; exact Hno | apply counted_absent; exact Hno]. }
  split; [| split].
  - intros Hne. apply percentage_cases. destruct data; [congruence | discriminate].
  - intros ->. reflexivity.
  - unfold r. rewrite Hcount. apply length_filter.
Qed.

(** The scenarios of the default table: 3 h against (3, 1) is a Critical
    breach of ratio 3; 0.1 h against (1, 1) is no breach; the pair (0, 0)
    has no entry and is left out of the indicators. *)
Example default_table_scenarios :
  let r := SLA.check_sla_breach
             [ Samples.row "A" 2 3 1 (Some 3%Q) (Samples.in_week 0);
               Samples.row "B" 1 1 1 (Some (1 # 10)%Q) (Samples.in_week 0);
               Samples.row_exempt ] SLA.default_sla in
  (SLA.ind_Incident_ID <$> SLA.breaches r) = ["A"; "B"]
  ∧ (SLA.breach <$> SLA.breaches r) = [true; false]
  ∧ (SLA.Severity <$> SLA.breached_details r) = [Critical]
  ∧ Forall2 Spec.xeq (SLA.Breach_Ratio <$> SLA.breached_details r) [3%Q]
  ∧ SLA.total_incidents_analyzed r = 3%nat
  ∧ SLA.total_sla_breaches r = 1%nat.
Proof. vm_compute. repeat split. repeat constructor. Qed.

(** C5 (the code departs from the claim).  With a table that allows zero
    hours for the pair (1, 1), a row of that pair with a handle time of two
    hours and a valid open time has a table entry and a handle time above
    it, yet the report has no indicator and no detail for it and counts no
    breach: the zero duration is false in the guard, as a missing entry is.
    The ratio expression itself would give the infinite ratio for it. *)
Theorem C5_zero_hour_sla_row_is_skipped :
  let tbl := SLA.str_sla_definitions Samples.zero_table in
  let r := SLA.check_sla_breach [Samples.row_zero_sla] Samples.zero_table in
  Spec.sla_lookup tbl Samples.row_zero_sla = Some 0
  ∧ ¬ Spec.exempt tbl Samples.row_zero_sla
  ∧ Spec.exceeds tbl Samples.row_zero_sla
  ∧ SLA.breaches r = []
  ∧ SLA.breached_details r = []
  ∧ SLA.total_sla_breaches r = 0%nat
  ∧ SLA.breach_ratio 2 (Timedelta.total_seconds 0 / 3600) = Num.PosInf.
Proof.
  cbv zeta.
  assert (Hl : Spec.sla_lookup (SLA.str_sla_definitions Samples.zero_table)
                 Samples.row_zero_sla = Some 0) by (vm_compute; reflexivity).
  split; [exact Hl |]. split; [| split; [| split; [| split; [| split]]]].
  - unfold Spec.exempt. rewrite Hl. intros [? | [? | ?]]; discriminate.
  - exists 2%Q, 0. split; [reflexivity |]. split; [exact Hl |].
    vm_compute. reflexivity.
  - vm_compute. reflexivity.
  - vm_compute. reflexivity.
  - vm_compute. reflexivity.
  - vm_compute. reflexivity.
Qed.

(** The guard drops every row whose allowed duration is zero. *)
Lemma zero_duration_not_evaluated (tbl : gmap string Timedelta.t)
    (row : incident) :
  Spec.sla_lookup tbl row = Some 0 →
  Spec.row_indicator tbl row = None ∧ Spec.row_detail tbl row = None.
Proof.
  intros Hz. unfold Spec.row_indicator, Spec.row_detail. rewrite Hz.
  unfold SLA.guard.
  destruct (Handle_Time_hrs row), (SLA.parse_open_time (Open_Time__ row));
    auto.
Qed.

(** C6 as stated fails: the recorded [Breach_Ratio] is the ratio rounded to
    two digits, and a handle time of 1.001 h against one hour is recorded
    as 1.0. *)
Lemma C6_counterexample :
  ¬ (∀ (data : list incident) (sla : list (SLA.sla_key * Timedelta.t))
       (bd : SLA.breach_detail),
       bd ∈ SLA.breached_details (SLA.check_sla_breach data sla) →
       Num.xgt (SLA.Breach_Ratio bd) 1).
Proof.
  intros H.
  specialize (H [Samples.row_ratio_1001] SLA.default_sla
                (SLA.detail_of Samples.row_ratio_1001 (1001 # 1000)
                   (At (Samples.monday + 0 * 604800)) (Timedelta.of_hours 1))).
  assert (Hin : SLA.detail_of Samples.row_ratio_1001 (1001 # 1000)
                  (At (Samples.monday + 0 * 604800)) (Timedelta.of_hours 1)
                ∈ SLA.breached_details
                    (SLA.check_sla_breach [Samples.row_ratio_1001]
                       SLA.default_sla))
    by (vm_compute; left).
  apply H in Hin. vm_compute in Hin. discriminate Hin.
Qed.

(** C6, amended.  For every record of the breach-detail list the breach
    ratio, handle time over allowed time, is above 1.0; the [Breach_Ratio]
    field holds that ratio rounded to two digits and is at least 1.0. *)
Theorem C6_breach_ratio_above_one
    (data : list incident) (sla : list (SLA.sla_key * Timedelta.t))
    (bd : SLA.breach_detail) :
  bd ∈ SLA.breached_details (SLA.check_sla_breach data sla) →
  Num.xgt (Spec.ratio_of bd) 1
  ∧ SLA.Breach_Ratio bd = Num.round2 (Spec.ratio_of bd)
  ∧ Spec.xge (SLA.Breach_Ratio bd) 1.
Proof.
  intros Hin. apply detail_origin in Hin
    as (row & h & ot & d & _ & _ & _ & _ & Hlt & ->).
  assert (Hgt : Num.xgt (Spec.ratio_of (SLA.detail_of row h ot d)) 1)
    by (apply breach_ratio_gt_1; exact Hlt).
  split; [exact Hgt |]. split; [reflexivity |].
  apply round2_ge_1 in Hgt. exact Hgt.
Qed.

Lemma C6_witness :
  let bd := SLA.detail_of Samples.row_ratio_1001 (1001 # 1000)
              (At (Samples.monday + 0 * 604800)) (Timedelta.of_hours 1) in
  Num.xgt (Spec.ratio_of bd) 1 ∧ Spec.xge (SLA.Breach_Ratio bd) 1.
Proof.
  intros bd.
  destruct (C6_breach_ratio_above_one [Samples.row_ratio_1001]
              SLA.default_sla bd) as (H1 & _ & H2).
  - vm_compute. left.
  - split; [exact H1 | exact H2].
Defined.

(** ** [sla_breach_summary] *)

Lemma count_breaches (bs : list SLA.indicator) (k : nat) :
  foldl (λ n b, if SLA.breach b then S n else n) k bs =
  (k + length (filter (λ b, SLA.breach b = true) bs))%nat.
Proof.
  revert k. induction bs as [| b bs IH]; intros k; simpl; [lia |].
  rewrite IH, filter_cons. destruct (SLA.breach b) eqn:E.
  - rewrite decide_True by reflexivity. simpl. lia.
  - rewrite decide_False by discriminate. lia.
Qed.

(** The indicators that say "breach" are those of the rows with a detail. *)
Lemma breach_indicators_are_details (tbl : gmap string Timedelta.t)
    (data : list incident) :
  length (filter (λ b, SLA.breach b = true)
            (omap (Spec.row_indicator tbl) data))
  = length (omap (Spec.row_detail tbl) data).
Proof.
  induction data as [| row data IH]; [reflexivity |].
  change (omap ?f (row :: data))
    with (match f row with Some y => y :: omap f data | None => omap f data end).
  unfold Spec.row_indicator at 1, Spec.row_detail at 1.
  destruct (SLA.guard _ _ _) as [[[h ot] d]|]; [| exact IH].
  rewrite filter_cons. simpl.
  destruct (Timedelta.gtb (Timedelta.of_hours h) d).
  - rewrite decide_True by reflexivity. simpl. f_equal. exact IH.
  - rewrite decide_False by discriminate. exact IH.
Qed.

Lemma evaluated_true (tbl : gmap string Timedelta.t) (row : incident) :
  Spec.evaluated tbl row = true
  ↔ Handle_Time_hrs row ≠ None
    ∧ (∃ d, Spec.sla_lookup tbl row = Some d ∧ d ≠ 0)
    ∧ Open_Time__ row ≠ TimeNone ∧ Open_Time__ row ≠ TimeInvalid.
Proof.
  unfold Spec.evaluated. rewrite bool_decide_eq_true. split.
  - intros [ind Hind]. apply row_indicator_Some in Hind
      as (h & ot & d & Hh & Ho & Ht & Hd & Hne & _).
    split; [congruence |]. split; [eauto |].
    apply truthy_open_time. now rewrite Ho.
  - intros (Hh & (d & Hd & Hne) & Hopen).
    destruct (Handle_Time_hrs row) as [h|] eqn:Eh; [| congruence].
    eexists. apply row_indicator_Some. eexists h, _, d.
    split; [exact Eh |]. split; [reflexivity |].
    split; [apply truthy_open_time; exact Hopen |]. auto.
Qed.

Section Percentages.

Local Open Scope Q_scope.

Lemma percentage_zero (total : nat) : SLA.percentage 0 total == 0.
Proof.
  unfold SLA.percentage. destruct (0 <? total)%nat; [| reflexivity].
  simpl. unfold Qdiv. rewrite !Qmult_0_l. reflexivity.
Qed.

(** Two percentages of one positive count differ iff the totals do. *)
Lemma percentage_differ (b e n : nat) :
  (0 < b)%nat → (b <= e)%nat → (e <= n)%nat →
  (¬ SLA.percentage b e == SLA.percentage b n) ↔ (e < n)%nat.
Proof.
  intros Hb Hbe Hen. unfold SLA.percentage.
  destruct (Nat.ltb_spec 0 e) as [He | He]; [| lia].
  destruct (Nat.ltb_spec 0 n) as [Hn | Hn]; [| lia].
  assert (HB : ¬ inject_Z (Z.of_nat b) == 0)
    by (change 0 with (inject_Z 0); rewrite inject_Z_injective; lia).
  assert (HE : ¬ inject_Z (Z.of_nat e) == 0)
    by (change 0 with (inject_Z 0); rewrite inject_Z_injective; lia).
  assert (HN : ¬ inject_Z (Z.of_nat n) == 0)
    by (change 0 with (inject_Z 0); rewrite inject_Z_injective; lia).
  split.
  - intros Hneq. destruct (Nat.eq_dec e n) as [-> | Hd]; [| lia].
    destruct Hneq. reflexivity.
  - intros Hlt Heq.
    assert (Hx : inject_Z (Z.of_nat n) == inject_Z (Z.of_nat e)).
    { transitivity
        (inject_Z (Z.of_nat b) / inject_Z (Z.of_nat e) * 100
         * (inject_Z (Z.of_nat e) * inject_Z (Z.of_nat n)
            / (100 * inject_Z (Z.of_nat b)))).
      - field. split; [exact HB | exact HE].
      - rewrite Heq. field. split; [exact HB | exact HN]. }
    apply (proj1 (inject_Z_injective _ _)) in Hx. lia.
Qed.

End Percentages.

(** C10 (the code departs from the claim).  The incident whose open time
    is missing ([NaT]) is exempt, yet [check_sla_breach] appends an indicator
    for it, so the summary of the indicator list counts it: one incident,
    one breach, 100 percent, computed over an exempt incident. *)
Theorem C10_indicator_for_missing_open_time :
  let tbl := SLA.str_sla_definitions SLA.default_sla in
  let r := SLA.check_sla_breach [Samples.row_nat] SLA.default_sla in
  let s := SLA.sla_breach_summary (SLA.breaches r) in
  Spec.exempt tbl Samples.row_nat
  ∧ (SLA.ind_Incident_ID <$> SLA.breaches r) = [Incident_ID Samples.row_nat]
  ∧ SLA.total_incidents s = 1%nat
  ∧ SLA.total_breaches s = 1%nat
  ∧ (SLA.breach_percentage s == 100)%Q.
Proof.
  cbv zeta. split; [right; right; reflexivity |].
  vm_compute. repeat split.
Qed.

(** X22.  The summary of an indicator list reports its length, the number
    of its entries that say "breach", and their quotient times 100 (0 for the
    empty list).  Applied to the indicator list of [check_sla_breach] it
    counts the evaluated rows only, those with a handle time, a non-zero
    entry for their pair and an open time that is neither [None] nor
    unreadable, and the same breaches as the report, so its percentage
    differs from the report's exactly when some row was not evaluated and
    there is a breach. *)
Theorem summary_over_evaluated_rows :
  (∀ bs : list SLA.indicator,
     let s := SLA.sla_breach_summary bs in
     SLA.total_incidents s = length bs
     ∧ SLA.total_breaches s = length (filter (λ b, SLA.breach b = true) bs)
     ∧ (bs ≠ [] →
        SLA.breach_percentage s =
        (inject_Z (Z.of_nat (SLA.total_breaches s))
         / inject_Z (Z.of_nat (SLA.total_incidents s)) * 100)%Q)
     ∧ (bs = [] → SLA.breach_percentage s = 0%Q))
  ∧ (∀ (data : list incident) (sla : list (SLA.sla_key * Timedelta.t)),
       let tbl := SLA.str_sla_definitions sla in
       let r := SLA.check_sla_breach data sla in
       let s := SLA.sla_breach_summary (SLA.breaches r) in
       SLA.total_incidents s =
         length (filter (λ row, Spec.evaluated tbl row = true) data)
       ∧ (∀ row, Spec.evaluated tbl row = true
                 ↔ Handle_Time_hrs row ≠ None
                   ∧ (∃ d, Spec.sla_lookup tbl row = Some d ∧ d ≠ 0)
                   ∧ Open_Time__ row ≠ TimeNone
                   ∧ Open_Time__ row ≠ TimeInvalid)
       ∧ SLA.total_breaches s = SLA.total_sla_breaches r
       ∧ (¬ (SLA.breach_percentage s == SLA.sla_breach_percentage r)%Q
          ↔ (∃ row, row ∈ data ∧ Spec.evaluated tbl row ≠ true)
            ∧ (0 < SLA.total_sla_breaches r)%nat)).
Proof.
  split.
  - intros bs s.
    assert (Hb : SLA.total_breaches s =
              length (filter (λ b, SLA.breach b = true) bs))
      by (unfold s, SLA.sla_breach_summary; simpl; apply count_breaches).
    split; [reflexivity |]. split; [exact Hb |]. split.
    + intros Hne. apply percentage_cases.
      destruct bs; [congruence | discriminate].
    + intros ->. reflexivity.
  - intros data sla tbl r s.
    assert (He : SLA.total_incidents s =
              length (filter (λ row, Spec.evaluated tbl row = true) data)).
    { change (SLA.total_incidents s) with (length (SLA.breaches r)).
      unfold r, tbl.
      rewrite report_breaches, length_omap_filter. unfold Spec.evaluated.
      f_equal. apply list_filter_iff. intros row.
      destruct (bool_decide _); split; auto; try discriminate; tauto. }
    assert (Hb : SLA.total_breaches s = SLA.total_sla_breaches r).
    { change (SLA.total_breaches s)
        with (foldl (λ n b, if SLA.breach b then S n else n) 0%nat
                (SLA.breaches r)).
      rewrite count_breaches.
      unfold r. rewrite report_breaches, report_total_breaches.
      apply breach_indicators_are_details. }
    split; [exact He |]. split; [intros row; apply evaluated_true |].
    split; [exact Hb |].
    change (SLA.breach_percentage s)
      with (SLA.percentage (SLA.total_breaches s) (SLA.total_incidents s)).
    change (SLA.sla_breach_percentage r)
      with (SLA.percentage (SLA.total_sla_breaches r) (length data)).
    rewrite Hb, He,
      <- (length_filter_lt (λ row, Spec.evaluated tbl row = true) data).
    assert (Hbe : (SLA.total_sla_breaches r
                   <= length (filter (λ row, Spec.evaluated tbl row = true) data))%nat).
    { rewrite <- He, <- Hb.
      change (SLA.total_breaches s)
        with (foldl (λ n b, if SLA.breach b then S n else n) 0%nat
                (SLA.breaches r)).
      rewrite count_breaches. apply length_filter. }
    pose proof (length_filter (λ row, Spec.evaluated tbl row = true) data) as Hen.
    destruct (Nat.eq_dec (SLA.total_sla_breaches r) 0%nat) as [Hz | Hz].
    + rewrite Hz. split; [| lia]. intros Hneq. destruct Hneq.
      rewrite !percentage_zero. reflexivity.
    + rewrite percentage_differ by lia. lia.
Qed.

Example summary_scenario :
  let r := SLA.check_sla_breach
             [Samples.row_ratio_15; Samples.row_exempt] SLA.default_sla in
  let s := SLA.sla_breach_summary (SLA.breaches r) in
  SLA.total_incidents s = 1%nat
  ∧ SLA.total_breaches s = 1%nat
  ∧ (SLA.breach_percentage s == 100)%Q
  ∧ (SLA.sla_breach_percentage r == 50)%Q.
Proof. vm_compute. repeat split. Qed.

(** ** [detect_priority_inconsistencies] *)

Section ConsistencyFacts.

Lemma flagged_rule_pattern (row : incident) :
  Consistency.flagged (Impact_enc row) (Urgency_enc row) (Priority_enc row)
    = true
  ↔ Spec.rule_pattern row.
Proof.
  unfold Consistency.flagged, Spec.rule_pattern.
  destruct (Z.eqb_spec (Impact_enc row) 3), (Z.eqb_spec (Impact_enc row) 1),
    (Z.eqb_spec (Urgency_enc row) 1), (Z.eqb_spec (Urgency_enc row) 3),
    (Z.eqb_spec (Priority_enc row) 1), (Z.eqb_spec (Priority_enc row) 3);
    simpl; split; try discriminate; try tauto; try lia.
Qed.

(** The loop keeps, in order, one record per row that matches a pattern. *)
Lemma scan_from (data : list incident) (acc : list Consistency.inconsistency) :
  foldl Consistency.step acc data =
  acc ++ (Consistency.record_of <$> filter Spec.rule_pattern data).
Proof.
  revert acc. induction data as [| row data IH]; intros acc.
  - simpl. rewrite app_nil_r. reflexivity.
  - simpl foldl. rewrite IH, filter_cons. unfold Consistency.step.
    destruct (Consistency.flagged _ _ _) eqn:E.
    + apply flagged_rule_pattern in E. rewrite decide_True by exact E.
      rewrite <- app_assoc. reflexivity.
    + rewrite decide_False; [reflexivity |].
      intros HP. apply flagged_rule_pattern in HP. congruence.
Qed.

Lemma scan_filter (data : list incident) :
  Consistency.scan data =
  Consistency.record_of <$> filter Spec.rule_pattern data.
Proof. unfold Consistency.scan. rewrite scan_from. reflexivity. Qed.

(** The call returns the result of the loop unless the snapshot has exactly
    one row. *)
Lemma detect_cases (data : list incident) :
  match Consistency.detect_priority_inconsistencies data with
  | inr l => l = Consistency.scan data ∧ length data ≠ 1%nat
  | inl e => e = IndexError ∧ length data = 1%nat
  end.
Proof.
  unfold Consistency.detect_priority_inconsistencies,
    Consistency.debug_first_row.
  destruct data as [| r1 [| r2 rest]]; simpl; auto.
Qed.


Lemma scan_record (data : list incident) (rec : Consistency.inconsistency) :
  rec ∈ Consistency.scan data
  ↔ ∃ row, row ∈ data ∧ Spec.rule_pattern row
           ∧ rec = Consistency.record_of row.
Proof.
  rewrite scan_filter, list_elem_of_fmap. split.
  - intros (row & -> & Hin). apply list_elem_of_filter in Hin as [HP Hin].
    eauto.
  - intros (row & Hin & HP & ->). exists row. split; [reflexivity |].
    apply list_elem_of_filter. auto.
Qed.

End ConsistencyFacts.

(** C3 (the code departs from the claim).  An incident with impact 3,
    urgency 1 and priority 2 matches the first rule pattern, and the loop
    over a snapshot that holds it alone would flag it; the call on that
    snapshot raises instead and produces no flag, as it does for every
    incident passed alone: the debug line before the loop reads the row at
    position 1, which a one-row frame does not have. *)
Theorem C3_lone_incident_gets_no_flag :
  Spec.rule_pattern Samples.row_312
  ∧ Consistency.scan [Samples.row_312]
    = [Consistency.record_of Samples.row_312]
  ∧ Consistency.detect_priority_inconsistencies [Samples.row_312]
    = inl IndexError
  ∧ (∀ row : incident,
       Consistency.detect_priority_inconsistencies [row] = inl IndexError).
Proof.
  split; [left; repeat split; discriminate |].
  split; [reflexivity |]. split; [reflexivity |]. intros row. reflexivity.
Qed.

(** X23.  On a snapshot that is empty or has two or more incidents the call
    returns one record per row that matches one of the two rule patterns,
    in row order, and none for any other row: a row of the snapshot has its
    record in the result iff impact = 3, urgency = 1 and priority is not 1,
    or impact = 1, urgency = 3 and priority is not 3. *)
Theorem flags_are_the_rule_pattern_rows (data : list incident) :
  length data ≠ 1%nat →
  ∃ l, Consistency.detect_priority_inconsistencies data = inr l
    ∧ l = Consistency.record_of <$> filter Spec.rule_pattern data
    ∧ (∀ row, row ∈ data →
         (Consistency.record_of row ∈ l
          ↔ (Impact_enc row = 3 ∧ Urgency_enc row = 1 ∧ Priority_enc row ≠ 1)
            ∨ (Impact_enc row = 1 ∧ Urgency_enc row = 3
               ∧ Priority_enc row ≠ 3))).
Proof.
  intros Hlen. exists (Consistency.scan data). split; [| split].
  - pose proof (detect_cases data) as H.
    destruct (Consistency.detect_priority_inconsistencies data) as [e | l].
    + destruct H as [_ H]. contradiction.
    + destruct H as [-> _]. reflexivity.
  - apply scan_filter.
  - intros row Hin. rewrite scan_record. split.
    + intros (row' & _ & HP & Heq).
      assert (HI : Impact_enc row = Impact_enc row')
        by exact (f_equal Consistency.Impact Heq).
      assert (HU : Urgency_enc row = Urgency_enc row')
        by exact (f_equal Consistency.Urgency Heq).
      assert (HPr : Priority_enc row = Priority_enc row')
        by exact (f_equal Consistency.Priority Heq).
      unfold Spec.rule_pattern in HP. rewrite HI, HU, HPr. exact HP.
    + intros HP. exists row. auto.
Qed.

Lemma flags_are_the_rule_pattern_rows_witness :
  ∃ l, Consistency.detect_priority_inconsistencies
         [Samples.row_312; Samples.row_222] = inr l
    ∧ l = [Consistency.record_of Samples.row_312]
    ∧ Consistency.record_of Samples.row_222 ∉ l.
Proof.
  destruct (flags_are_the_rule_pattern_rows
              [Samples.row_312; Samples.row_222])
    as (l & Hret & Hl & H); [simpl; lia |].
  exists l. split; [exact Hret |]. split; [rewrite Hl; reflexivity |].
  intros Hin. apply (H Samples.row_222) in Hin; [| right; left].
  vm_compute in Hin. destruct Hin as [(E & _) | (E & _)]; discriminate E.
Defined.



(** C9 (the code departs from the claim).  On a snapshot of exactly one
    incident the call raises: the debug line reads the row at position 1,
    which a one-row frame does not have.  On the empty snapshot and on any
    snapshot of two or more incidents the call returns the result of the
    loop, and the detection time of a record is null when the open time is
    absent or does not parse. *)
Theorem C9_single_incident_snapshot_raises :
  (∀ row : incident,
     Consistency.detect_priority_inconsistencies [row] = inl IndexError)
  ∧ Consistency.detect_priority_inconsistencies [] = inr []
  ∧ (∀ (r1 r2 : incident) (rest : list incident),
       Consistency.detect_priority_inconsistencies (r1 :: r2 :: rest)
       = inr (Consistency.scan (r1 :: r2 :: rest)))
  ∧ Consistency.detected_at TimeNone = None
  ∧ Consistency.detected_at TimeInvalid = None.
Proof. repeat split. Qed.

(** ** [compute_weekly_trend] *)

Section TrendFacts.

(** *** The sliding window *)

Lemma last_n_nil {A} (n : nat) : Trend.last_n n (@nil A) = [].
Proof. unfold Trend.last_n. destruct (_ - _)%nat; reflexivity. Qed.

Lemma last_n_snoc {A} (n : nat) (pre : list A) (x : A) :
  Trend.last_n n (Trend.last_n n pre ++ [x]) = Trend.last_n n (pre ++ [x]).
Proof.
  unfold Trend.last_n. rewrite !length_app, length_drop. simpl.
  destruct (Nat.le_gt_cases (length pre) n) as [Hle | Hgt].
  - replace (length pre - n)%nat with 0%nat by lia. rewrite drop_0.
    f_equal. lia.
  - replace (length pre - (length pre - n) + 1 - n)%nat with 1%nat by lia.
    destruct n as [| n].
    + rewrite !drop_ge; [reflexivity | |];
        rewrite ?length_app, ?length_drop; simpl; lia.
    + rewrite !drop_app_le by (rewrite ?length_drop; lia).
      rewrite drop_drop. f_equal. f_equal. lia.
Qed.

Lemma length_rolling_from (n : nat) (win xs : list Z) :
  length (Trend.rolling_from n win xs) = length xs.
Proof.
  revert win. induction xs as [| x xs IH]; intros win; simpl;
    [reflexivity | f_equal; apply IH].
Qed.

(** Entry [i] of the rolling mean is the mean of the [n] latest values up to
    and including position [i]. *)
Lemma rolling_from_lookup (n : nat) (xs pre : list Z) (i : nat) :
  (i < length xs)%nat →
  Trend.rolling_from n (Trend.last_n n pre) xs !! i
  = Some (Trend.mean (Trend.last_n n (pre ++ take (S i) xs))).
Proof.
  revert pre i. induction xs as [| x xs IH]; intros pre i Hi; simpl in Hi;
    [lia |].
  simpl Trend.rolling_from. rewrite last_n_snoc. destruct i as [| i].
  - simpl. rewrite take_0. reflexivity.
  - simpl lookup. rewrite IH by lia.
    rewrite <- app_assoc. reflexivity.
Qed.

Lemma rolling_mean_lookup (xs : list Z) (i : nat) :
  (i < length xs)%nat →
  Trend.rolling_mean 3 xs !! i
  = Some (Trend.mean (drop (S i - 3) (take (S i) xs))).
Proof.
  intros Hi. unfold Trend.rolling_mean.
  rewrite <- (last_n_nil (A := Z) 3) at 1.
  rewrite rolling_from_lookup by exact Hi. simpl app.
  unfold Trend.last_n. rewrite length_take_le by lia. reflexivity.
Qed.

(** *** The records *)

Lemma zip_buckets_fields (weekly : list (Z * Z)) (avgs : list Q) :
  length avgs = length weekly →
  Trend.week <$> zip_with Trend.mk_bucket weekly avgs = fst <$> weekly
  ∧ Trend.incident_count <$> zip_with Trend.mk_bucket weekly avgs
    = snd <$> weekly
  ∧ Trend.rolling_avg <$> zip_with Trend.mk_bucket weekly avgs = avgs
  ∧ Trend.spike <$> zip_with Trend.mk_bucket weekly avgs
    = zip_with Trend.is_spike (snd <$> weekly) avgs.
Proof.
  revert avgs. induction weekly as [| kc weekly IH]; intros [| a avgs] Hlen;
    try discriminate; [repeat split |].
  simpl in Hlen. destruct (IH avgs) as (H1 & H2 & H3 & H4); [congruence |].
  change (zip_with Trend.mk_bucket (kc :: weekly) (a :: avgs))
    with (Trend.mk_bucket kc a :: zip_with Trend.mk_bucket weekly avgs).
  rewrite !fmap_cons, H1, H2, H3, H4. repeat split.
Qed.

Lemma trend_fields (weekly : list (Z * Z)) :
  Trend.week <$> Trend.trend_of_sizes weekly = fst <$> weekly
  ∧ Trend.incident_count <$> Trend.trend_of_sizes weekly = snd <$> weekly
  ∧ Trend.rolling_avg <$> Trend.trend_of_sizes weekly
    = Trend.rolling_mean 3 (snd <$> weekly)
  ∧ Trend.spike <$> Trend.trend_of_sizes weekly
    = zip_with Trend.is_spike (snd <$> weekly)
        (Trend.rolling_mean 3 (snd <$> weekly)).
Proof.
  apply zip_buckets_fields. unfold Trend.rolling_mean.
  rewrite length_rolling_from, length_fmap. reflexivity.
Qed.

(** Each record pairs a weekly size with the rolling mean at its position. *)
Lemma trend_lookup (weekly : list (Z * Z)) (i : nat) (b : Trend.bucket) :
  Trend.trend_of_sizes weekly !! i = Some b →
  Trend.rolling_avg b
    = Trend.mean (Trend.incident_count
                    <$> drop (S i - 3) (take (S i) (Trend.trend_of_sizes weekly)))
  ∧ Trend.spike b
    = Trend.is_spike (Trend.incident_count b) (Trend.rolling_avg b).
Proof.
  intros Hb. pose proof Hb as Hb'. unfold Trend.trend_of_sizes in Hb'.
  apply lookup_zip_with_Some in Hb' as (kc & avg & -> & Hkc & Havg).
  split; [| reflexivity]. simpl.
  rewrite fmap_drop, fmap_take.
  destruct (trend_fields weekly) as (_ & -> & _ & _).
  rewrite rolling_mean_lookup in Havg.
  - injection Havg as <-. reflexivity.
  - rewrite length_fmap. apply lookup_lt_Some in Hkc. exact Hkc.
Qed.

End TrendFacts.

(** *** Grouping by week *)

Section GroupbyFacts.

Lemma bump_keys (w k : Z) (sizes : list (Z * Z)) :
  k ∈ (Trend.bump w sizes).*1 ↔ k = w ∨ k ∈ sizes.*1.
Proof.
  induction sizes as [| [k0 c0] sizes IH]; simpl.
  - rewrite list_elem_of_singleton. split; [auto | intros [? | H]; auto].
    inversion H.
  - destruct (Z.ltb_spec w k0); [| destruct (Z.eqb_spec w k0)]; simpl.
    + rewrite elem_of_cons. reflexivity.
    + subst. rewrite !elem_of_cons. tauto.
    + rewrite !elem_of_cons, IH. tauto.
Qed.

Lemma bump_sorted (w : Z) (sizes : list (Z * Z)) :
  StronglySorted Z.lt sizes.*1 → StronglySorted Z.lt (Trend.bump w sizes).*1.
Proof.
  induction sizes as [| [k0 c0] sizes IH]; simpl; intros Hs.
  - repeat constructor.
  - apply StronglySorted_cons in Hs as [Hall Hs].
    destruct (Z.ltb_spec w k0); [| destruct (Z.eqb_spec w k0)]; simpl.
    + apply StronglySorted_cons. split.
      * constructor; [assumption |].
        eapply Forall_impl; [exact Hall |]. simpl. intros. lia.
      * apply StronglySorted_cons. auto.
    + apply StronglySorted_cons. auto.
    + apply StronglySorted_cons. split; [| auto].
      apply Forall_forall. intros k Hk. apply bump_keys in Hk as [-> | Hk].
      * lia.
      * rewrite Forall_forall in Hall. auto.
Qed.

Lemma bump_positive (w : Z) (sizes : list (Z * Z)) :
  Forall (λ kc, 1 <= kc.2) sizes →
  Forall (λ kc, 1 <= kc.2) (Trend.bump w sizes).
Proof.
  induction sizes as [| [k0 c0] sizes IH]; simpl; intros Hs.
  - repeat constructor. simpl. lia.
  - apply Forall_cons in Hs as [Hc Hs]. simpl in Hc.
    destruct (Z.ltb_spec w k0); [| destruct (Z.eqb_spec w k0)].
    + repeat constructor; simpl; auto; lia.
    + constructor; simpl; auto; lia.
    + constructor; simpl; auto.
Qed.

Lemma size_at_bump (w w' : Z) (sizes : list (Z * Z)) :
  Spec.size_at (Trend.bump w sizes) w'
  = Spec.size_at sizes w' + (if w =? w' then 1 else 0).
Proof.
  induction sizes as [| [k0 c0] sizes IH]; simpl.
  - destruct (w =? w'); lia.
  - destruct (Z.ltb_spec w k0); [| destruct (Z.eqb_spec w k0)]; simpl.
    + destruct (w =? w'); lia.
    + subst. destruct (k0 =? w'); lia.
    + rewrite IH. destruct (k0 =? w'); lia.
Qed.

Lemma size_at_absent (sizes : list (Z * Z)) (w : Z) :
  w ∉ sizes.*1 → Spec.size_at sizes w = 0.
Proof.
  induction sizes as [| [k0 c0] sizes IH]; simpl; [reflexivity |].
  rewrite not_elem_of_cons. intros [Hne Hnot].
  destruct (Z.eqb_spec k0 w); [congruence | auto].
Qed.

Lemma size_at_sorted (sizes : list (Z * Z)) (w c : Z) :
  StronglySorted Z.lt sizes.*1 → (w, c) ∈ sizes → Spec.size_at sizes w = c.
Proof.
  induction sizes as [| [k0 c0] sizes IH]; simpl; intros Hs Hin.
  - inversion Hin.
  - apply StronglySorted_cons in Hs as [Hall Hs].
    rewrite Forall_forall in Hall.
    apply elem_of_cons in Hin as [[= -> ->] | Hin].
    + rewrite Z.eqb_refl, size_at_absent; [lia |].
      intros Hk. apply Hall in Hk. lia.
    + assert (Hw : w ∈ sizes.*1)
        by (apply list_elem_of_fmap; exists (w, c); auto).
      apply Hall in Hw. destruct (Z.eqb_spec k0 w); [lia | auto].
Qed.

(** The table of weekly sizes: keys in increasing order, sizes positive, and
    the size of a week the number of keys equal to it. *)
Lemma groupby_size_from (keys : list (option Z)) (acc : list (Z * Z)) :
  let f := λ sizes (k : option Z),
             match k with Some w => Trend.bump w sizes | None => sizes end in
  StronglySorted Z.lt acc.*1 → Forall (λ kc, 1 <= kc.2) acc →
  StronglySorted Z.lt (foldl f acc keys).*1
  ∧ Forall (λ kc, 1 <= kc.2) (foldl f acc keys)
  ∧ ∀ w, Spec.size_at (foldl f acc keys) w
         = Spec.size_at acc w
           + Z.of_nat (length (filter (λ k, k = Some w) keys)).
Proof.
  intros f. revert acc. induction keys as [| k keys IH]; intros acc Hs Hp.
  - simpl. split; [exact Hs |]. split; [exact Hp |]. intros w. lia.
  - simpl foldl. destruct k as [w0 |]; simpl.
    + destruct (IH (Trend.bump w0 acc)) as (H1 & H2 & H3);
        [apply bump_sorted; exact Hs | apply bump_positive; exact Hp |].
      split; [exact H1 |]. split; [exact H2 |].
      intros w. rewrite H3, size_at_bump, filter_cons.
      destruct (Z.eqb_spec w0 w) as [-> | Hne].
      * rewrite decide_True by reflexivity. simpl. lia.
      * rewrite decide_False by congruence. lia.
    + destruct (IH acc Hs Hp) as (H1 & H2 & H3).
      split; [exact H1 |]. split; [exact H2 |].
      intros w. rewrite H3, filter_cons.
      rewrite decide_False by discriminate. reflexivity.
Qed.

Lemma groupby_size_spec (keys : list (option Z)) :
  StronglySorted Z.lt (Trend.groupby_size keys).*1
  ∧ Forall (λ kc, 1 <= kc.2) (Trend.groupby_size keys)
  ∧ ∀ w c, (w, c) ∈ Trend.groupby_size keys →
           c = Z.of_nat (length (filter (λ k, k = Some w) keys)).
Proof.
  destruct (groupby_size_from keys []) as (H1 & H2 & H3);
    [constructor | constructor |].
  split; [exact H1 |]. split; [exact H2 |].
  intros w c Hin. rewrite <- (size_at_sorted _ w c H1 Hin).
  unfold Trend.groupby_size. rewrite H3. reflexivity.
Qed.


(** Reading every cell on its own is a column parser. *)
Lemma read_each_cell_inr (col : list time_cell) (times : list (option Z)) :
  Trend.read_each_cell col = inr times →
  times = instant_of <$> col ∧ TimeInvalid ∉ col.
Proof.
  revert times. induction col as [| c col IH]; intros times; simpl.
  - intros [= <-]. split; [reflexivity | apply not_elem_of_nil].
  - destruct (to_datetime c) as [e | o] eqn:Ec; [discriminate |].
    destruct (Trend.read_each_cell col) as [e | os]; [discriminate |].
    intros [= <-]. destruct (IH os eq_refl) as [-> Hno].
    split; [reflexivity |]. apply not_elem_of_cons. split; [| exact Hno].
    intros <-. discriminate Ec.
Qed.

Lemma read_each_cell_parser : Trend.column_parser Trend.read_each_cell.
Proof.
  intros col. destruct (Trend.read_each_cell col) as [e | times] eqn:E;
    [exact I | apply read_each_cell_inr; exact E].
Qed.

End GroupbyFacts.

Section TrendReport.

Lemma length_filter_fmap {A B} (f : A → B) (P : B → Prop)
    `{∀ y, Decision (P y)} (l : list A) :
  length (filter P (f <$> l)) = length (filter (λ x, P (f x)) l).
Proof.
  induction l as [| x l IH]; [reflexivity |].
  rewrite fmap_cons, !filter_cons.
  destruct (decide (P (f x))); simpl; rewrite IH; reflexivity.
Qed.

(** Where the call returns, its records are those of the table of weekly
    sizes of the rows. *)
Lemma compute_weekly_trend_inr
    (to_datetime_series : list time_cell → py_exn + list (option Z))
    (data : list incident) (bs : list Trend.bucket) :
  Trend.column_parser to_datetime_series →
  Trend.compute_weekly_trend to_datetime_series data = inr bs →
  bs = Trend.trend_of_sizes (Trend.groupby_size (Spec.week_of <$> data)).
Proof.
  intros Hparser. unfold Trend.compute_weekly_trend.
  specialize (Hparser (Open_Time__ <$> data)).
  destruct (to_datetime_series _) as [e | times]; [discriminate |].
  destruct Hparser as [-> _]. intros [= <-].
  rewrite <- !list_fmap_compose. reflexivity.
Qed.

(** Three neighbours of a list, cut out of it. *)
Lemma window_of_three {A} (l : list A) (i : nat) (a b c : A) :
  l !! i = Some a → l !! S i = Some b → l !! S (S i) = Some c →
  drop i (take (S (S (S i))) l) = [a; b; c].
Proof.
  intros Ha Hb Hc.
  rewrite (take_S_r l (S (S i)) c Hc), (take_S_r l (S i) b Hb),
    (take_S_r l i a Ha), <- !app_assoc.
  rewrite drop_app_length'; [reflexivity |].
  rewrite length_take_le; [reflexivity |].
  apply lookup_lt_Some in Ha. lia.
Qed.






End TrendReport.



(** The averages and flags depend on the weekly counts only. *)
Lemma trend_of_counts
    (to_datetime_series : list time_cell → py_exn + list (option Z))
    (data : list incident) (bs : list Trend.bucket) :
  Trend.column_parser to_datetime_series →
  Trend.compute_weekly_trend to_datetime_series data = inr bs →
  Trend.rolling_avg <$> bs
    = Trend.rolling_mean 3 (Trend.incident_count <$> bs)
  ∧ Trend.spike <$> bs
    = zip_with Trend.is_spike (Trend.incident_count <$> bs)
        (Trend.rolling_mean 3 (Trend.incident_count <$> bs)).
Proof.
  intros Hparser Hret.
  apply (compute_weekly_trend_inr _ _ _ Hparser) in Hret. subst bs.
  destruct (trend_fields (Trend.groupby_size (Spec.week_of <$> data)))
    as (_ & -> & -> & ->).
  split; reflexivity.
Qed.

(** C8 as stated fails: with weekly counts 10, 12, 11, 40 the rolling
    average of the fourth week is (12 + 11 + 40) / 3 = 21, not 11. *)
Lemma C8_counterexample :
  ¬ (∀ (to_datetime_series : list time_cell → py_exn + list (option Z))
       (data : list incident) (bs : list Trend.bucket),
       Trend.column_parser to_datetime_series →
       Trend.compute_weekly_trend to_datetime_series data = inr bs →
       Trend.incident_count <$> bs = [10; 12; 11; 40] →
       Forall2 Qeq (Trend.rolling_avg <$> bs) [10%Q; 11%Q; 11%Q; 11%Q]
       ∧ Trend.spike <$> bs = [false; false; false; true]).
Proof.
  intros H.
  destruct (H Trend.read_each_cell Samples.four_weeks
              (Trend.trend_of_sizes
                 (Trend.groupby_size (Spec.week_of <$> Samples.four_weeks)))
              read_each_cell_parser)
    as [Havg _]; [vm_compute; reflexivity | vm_compute; reflexivity |].
  vm_compute in Havg.
  inversion_clear Havg as [| ? ? ? ? _ H1].
  inversion_clear H1 as [| ? ? ? ? _ H2].
  inversion_clear H2 as [| ? ? ? ? _ H3].
  inversion_clear H3 as [| ? ? ? ? H4 _].
  discriminate H4.
Qed.

(** C8, amended.  With weekly counts 10, 12, 11, 40 in chronological order
    the rolling averages are 10, 11, 11, 21; the fourth week is flagged as a
    spike (40 is above 1.5 times 21, that is 31.5) and the first three are
    not. *)
Theorem C8_counts_10_12_11_40
    (to_datetime_series : list time_cell → py_exn + list (option Z))
    (data : list incident) (bs : list Trend.bucket) :
  Trend.column_parser to_datetime_series →
  Trend.compute_weekly_trend to_datetime_series data = inr bs →
  Trend.incident_count <$> bs = [10; 12; 11; 40] →
  Forall2 Qeq (Trend.rolling_avg <$> bs) [10%Q; 11%Q; 11%Q; 21%Q]
  ∧ Trend.spike <$> bs = [false; false; false; true]
  ∧ ((3 # 2) * 21 == 63 # 2)%Q.
Proof.
  intros Hparser Hret Hcounts.
  destruct (trend_of_counts _ data bs Hparser Hret) as [-> ->].
  rewrite Hcounts.
  split; [| split].
  - vm_compute. repeat constructor.
  - vm_compute. reflexivity.
  - reflexivity.
Qed.

Lemma C8_witness :
  ∃ bs, Trend.compute_weekly_trend Trend.read_each_cell Samples.four_weeks = inr bs
        ∧ Trend.incident_count <$> bs = [10; 12; 11; 40]
        ∧ Forall2 Qeq (Trend.rolling_avg <$> bs) [10%Q; 11%Q; 11%Q; 21%Q]
        ∧ Trend.spike <$> bs = [false; false; false; true].
Proof.
  exists (Trend.trend_of_sizes
            (Trend.groupby_size (Spec.week_of <$> Samples.four_weeks))).
  assert (Hret : Trend.compute_weekly_trend Trend.read_each_cell Samples.four_weeks
                 = inr (Trend.trend_of_sizes
                          (Trend.groupby_size
                             (Spec.week_of <$> Samples.four_weeks))))
    by (vm_compute; reflexivity).
  assert (Hcounts : Trend.incident_count
                      <$> Trend.trend_of_sizes
                            (Trend.groupby_size
                               (Spec.week_of <$> Samples.four_weeks))
                    = [10; 12; 11; 40])
    by (vm_compute; reflexivity).
  destruct (C8_counts_10_12_11_40 _ _ _ read_each_cell_parser Hret Hcounts)
    as (Havg & Hspike & _).
  split; [exact Hret |]. split; [exact Hcounts |].
  split; [exact Havg | exact Hspike].
Defined.

(** * Further properties *)

(** ** The report of [check_sla_breach] *)

Section PercentageRange.

Local Open Scope Q_scope.

Lemma percentage_range (count total : nat) :
  (count <= total)%nat →
  0 <= SLA.percentage count total ∧ SLA.percentage count total <= 100.
Proof.
  intros Hle. unfold SLA.percentage.
  destruct (Nat.ltb_spec 0 total) as [Hpos | Hz];
    [| split; [apply Qle_refl | discriminate]].
  assert (Ht : 0 < inject_Z (Z.of_nat total))
    by (change 0 with (inject_Z 0); rewrite <- Zlt_Qlt; lia).
  assert (Hc : 0 <= inject_Z (Z.of_nat count))
    by (change 0 with (inject_Z 0); rewrite <- Zle_Qle; lia).
  assert (Hct : inject_Z (Z.of_nat count) <= inject_Z (Z.of_nat total))
    by (rewrite <- Zle_Qle; lia).
  split.
  - apply Qmult_le_0_compat; [| discriminate].
    apply Qle_shift_div_l; [exact Ht |]. rewrite Qmult_0_l. exact Hc.
  - change 100 with (1 * 100) at 2.
    apply Qmult_le_compat_r; [| discriminate].
    apply Qle_shift_div_r; [exact Ht |]. rewrite Qmult_1_l. exact Hct.
Qed.

(** One count over a smaller total is the larger percentage. *)
Lemma percentage_antitone (count e n : nat) :
  (count <= e)%nat → (e <= n)%nat →
  SLA.percentage count n <= SLA.percentage count e.
Proof.
  intros Hce Hen. unfold SLA.percentage.
  destruct (Nat.ltb_spec 0 e) as [He | He].
  - destruct (Nat.ltb_spec 0 n) as [Hn | Hn]; [| lia].
    apply Qmult_le_compat_r; [| discriminate].
    assert (HE : 0 < inject_Z (Z.of_nat e))
      by (change 0 with (inject_Z 0); rewrite <- Zlt_Qlt; lia).
    assert (HN : 0 < inject_Z (Z.of_nat n))
      by (change 0 with (inject_Z 0); rewrite <- Zlt_Qlt; lia).
    apply Qle_shift_div_l; [exact HE |].
    unfold Qdiv. rewrite <- Qmult_assoc, (Qmult_comm (/ _)), Qmult_assoc.
    apply Qle_shift_div_r; [exact HN |].
    rewrite <- !inject_Z_mult, <- Zle_Qle. nia.
  - assert (count = 0%nat) as -> by lia.
    destruct (0 <? n)%nat; [| apply Qle_refl].
    unfold Qdiv. simpl. rewrite !Qmult_0_l. apply Qle_refl.
Qed.

End PercentageRange.

(** X1.  Both percentages are between 0 and 100: the one in the report of
    [check_sla_breach], for every snapshot and table, and the one
    [sla_breach_summary] gives for every indicator list. *)
Theorem percentages_between_0_and_100 :
  (∀ (data : list incident) (sla : list (SLA.sla_key * Timedelta.t)),
     (0 <= SLA.sla_breach_percentage (SLA.check_sla_breach data sla))%Q
     ∧ (SLA.sla_breach_percentage (SLA.check_sla_breach data sla) <= 100)%Q)
  ∧ (∀ bs : list SLA.indicator,
       (0 <= SLA.breach_percentage (SLA.sla_breach_summary bs))%Q
       ∧ (SLA.breach_percentage (SLA.sla_breach_summary bs) <= 100)%Q).
Proof.
  split.
  - intros data sla. rewrite report_percentage, report_total_breaches.
    apply percentage_range. rewrite length_omap_filter. apply length_filter.
  - intros bs. unfold SLA.sla_breach_summary. simpl.
    apply percentage_range. rewrite count_breaches. simpl.
    apply length_filter.
Qed.

(** X2.  The percentage [sla_breach_summary] computes from the indicator list
    of a report is never below the percentage of the report itself. *)
Theorem summary_percentage_not_below_report
    (data : list incident) (sla : list (SLA.sla_key * Timedelta.t)) :
  let r := SLA.check_sla_breach data sla in
  (SLA.sla_breach_percentage r
   <= SLA.breach_percentage (SLA.sla_breach_summary (SLA.breaches r)))%Q.
Proof.
  intros r.
  change (SLA.breach_percentage (SLA.sla_breach_summary (SLA.breaches r)))
    with (SLA.percentage
            (foldl (λ n b, if SLA.breach b then S n else n) 0%nat
               (SLA.breaches r))
            (length (SLA.breaches r))).
  rewrite count_breaches. unfold r.
  rewrite report_percentage, report_total_breaches, report_breaches.
  rewrite breach_indicators_are_details. simpl.
  apply percentage_antitone.
  - rewrite <- breach_indicators_are_details. apply length_filter.
  - rewrite length_omap_filter. apply length_filter.
Qed.

(** X3.  The records of the detail list are, in the same order, those of
    the indicators that say "breach": same incident, same breach time. *)
Theorem details_match_breach_indicators
    (data : list incident) (sla : list (SLA.sla_key * Timedelta.t)) :
  let r := SLA.check_sla_breach data sla in
  (λ d, (SLA.bd_Incident_ID d, SLA.Breach_Time d)) <$> SLA.breached_details r
  = (λ b, (SLA.ind_Incident_ID b, SLA.ind_Breach_Time b))
      <$> filter (λ b, SLA.breach b = true) (SLA.breaches r).
Proof.
  intros r. unfold r. rewrite report_details, report_breaches.
  generalize (SLA.str_sla_definitions sla). intros tbl.
  induction data as [| row data IH]; [reflexivity |].
  change (omap ?f (row :: data))
    with (match f row with Some y => y :: omap f data | None => omap f data end).
  unfold Spec.row_indicator at 1, Spec.row_detail at 1.
  destruct (SLA.guard _ _ _) as [[[h ot] d]|]; [| exact IH].
  rewrite filter_cons. simpl SLA.breach.
  destruct (Timedelta.gtb (Timedelta.of_hours h) d).
  - rewrite decide_True by reflexivity. rewrite !fmap_cons, IH. reflexivity.
  - rewrite decide_False by discriminate. exact IH.
Qed.

(** X5.  In the re-keyed table the last item of a key wins: a tuple key
    (i, u) and a string key ["i_u"] are one key, and the table holds the
    duration of whichever item comes last. *)
Theorem str_sla_definitions_last_wins
    (before after : list (SLA.sla_key * Timedelta.t))
    (k : SLA.sla_key) (d : Timedelta.t) :
  (∀ k' d', (k', d') ∈ after → SLA.str_key k' ≠ SLA.str_key k) →
  SLA.str_sla_definitions (before ++ (k, d) :: after) !! SLA.str_key k
  = Some d.
Proof.
  intros Hafter. unfold SLA.str_sla_definitions.
  rewrite foldl_app. simpl.
  rewrite str_sla_definitions_from by exact Hafter.
  apply lookup_insert_eq.
Qed.

Lemma str_sla_definitions_last_wins_witness :
  SLA.str_sla_definitions
    ([(SLA.KTuple 3 1, Timedelta.of_hours 1)]
     ++ (SLA.KStr "3_1", Timedelta.of_hours 8) :: [])
    !! SLA.fmt_key 3 1
  = Some (Timedelta.of_hours 8).
Proof.
  apply (str_sla_definitions_last_wins
           [(SLA.KTuple 3 1, Timedelta.of_hours 1)] []
           (SLA.KStr "3_1") (Timedelta.of_hours 8)).
  intros k' d' Hin. inversion Hin.
Defined.

Section SeverityOrder.

Local Open Scope Q_scope.

Lemma Qltb_mono (c c' q q' : Q) :
  c' <= c → q <= q' → Num.Qltb c q = true → Num.Qltb c' q' = true.
Proof.
  rewrite !Qltb_lt. intros Hc Hq Hlt.
  eapply Qle_lt_trans; [exact Hc |]. eapply Qlt_le_trans; eauto.
Qed.

(** X6.  A larger ratio never gets a milder tier, and no tier is graver
    than the one of the infinite ratio. *)
Theorem severity_monotone_in_ratio :
  (∀ q q' : Q, q <= q' →
     (Props.rank (SLA.severity_of_ratio (Num.Fin q))
      <= Props.rank (SLA.severity_of_ratio (Num.Fin q')))%nat)
  ∧ (∀ r : Num.xfloat,
       (Props.rank (SLA.severity_of_ratio r)
        <= Props.rank (SLA.severity_of_ratio Num.PosInf))%nat).
Proof.
  split.
  - intros q q' Hq.
    assert (H32 : 3 # 2 <= 2) by (unfold Qle; simpl; lia).
    assert (H12 : 12 # 10 <= 3 # 2) by (unfold Qle; simpl; lia).
    assert (H122 : 12 # 10 <= 2) by (unfold Qle; simpl; lia).
    pose proof (Qltb_mono 2 2 q q' (Qle_refl _) Hq) as M1.
    pose proof (Qltb_mono 2 (3 # 2) q q' H32 Hq) as M2.
    pose proof (Qltb_mono 2 (12 # 10) q q' H122 Hq) as M3.
    pose proof (Qltb_mono (3 # 2) (3 # 2) q q' (Qle_refl _) Hq) as M4.
    pose proof (Qltb_mono (3 # 2) (12 # 10) q q' H12 Hq) as M5.
    pose proof (Qltb_mono (12 # 10) (12 # 10) q q' (Qle_refl _) Hq) as M6.
    unfold SLA.severity_of_ratio, Num.xgtb.
    destruct (Num.Qltb 2 q), (Num.Qltb (3 # 2) q), (Num.Qltb (12 # 10) q),
      (Num.Qltb 2 q'), (Num.Qltb (3 # 2) q'), (Num.Qltb (12 # 10) q');
      simpl; try lia; exfalso;
      repeat match goal with
             | H : true = true → _ |- _ => specialize (H eq_refl)
             end; congruence.
  - intros r. change (SLA.severity_of_ratio Num.PosInf) with Critical.
    destruct (SLA.severity_of_ratio r); simpl; lia.
Qed.

Lemma severity_monotone_in_ratio_witness :
  (Props.rank (SLA.severity_of_ratio (Num.Fin (13 # 10)))
   <= Props.rank (SLA.severity_of_ratio (Num.Fin (21 # 10))))%nat.
Proof.
  apply (proj1 severity_monotone_in_ratio). unfold Qle. simpl. lia.
Defined.

End SeverityOrder.

Section Rounding.

Local Open Scope Q_scope.

(** Rounding moves a value by at most one half. *)
Lemma round_half_even_near (x : Q) :
  x - (1 # 2) <= inject_Z (Num.round_half_even x)
  ∧ inject_Z (Num.round_half_even x) <= x + (1 # 2).
Proof.
  destruct x as [a d].
  pose proof (Z.div_mod a (Z.pos d) ltac:(lia)) as Hdm.
  pose proof (Z.mod_pos_bound a (Z.pos d) ltac:(lia)) as Hb.
  assert (Hr : (2 * a - Z.pos d <= 2 * Num.round_half_even (a # d) * Z.pos d
                ∧ 2 * Num.round_half_even (a # d) * Z.pos d
                  <= 2 * a + Z.pos d)%Z).
  { unfold Num.round_half_even, Qfloor. cbn [Qnum Qden].
    destruct (Z.compare_spec (2 * (a mod Z.pos d)) (Z.pos d));
      [destruct (Z.even (a / Z.pos d)) |..]; nia. }
  destruct Hr as [Hlo Hhi].
  unfold Qle, Qminus, Qplus, Qopp, inject_Z. simpl. split; nia.
Qed.

Lemma round2_near (q : Q) :
  q - (1 # 200) <= inject_Z (Num.round_half_even (q * 100)) / 100
  ∧ inject_Z (Num.round_half_even (q * 100)) / 100 <= q + (1 # 200).
Proof.
  destruct (round_half_even_near (q * 100)) as [Hlo Hhi]. split.
  - apply Qle_shift_div_l; [reflexivity |].
    eapply Qle_trans; [| exact Hlo].
    apply Qle_lteq. right. ring.
  - apply Qle_shift_div_r; [reflexivity |].
    eapply Qle_trans; [exact Hhi |].
    apply Qle_lteq. right. ring.
Qed.

Lemma sla_hours_sign (d : Timedelta.t) :
  (Num.Qltb 0 (Timedelta.total_seconds d / 3600) = true ↔ (0 < d)%Z)
  ∧ ((d < 0)%Z → Timedelta.total_seconds d / 3600 < 0).
Proof.
  unfold Timedelta.total_seconds. rewrite Qltb_lt.
  unfold Qlt, Qdiv, Qmult, Qinv, inject_Z. simpl. split; [split |]; lia.
Qed.

End Rounding.

(** X7.  In a detail record with a positive allowed time the ratio is
    finite, and the [Breach_Ratio] field is a whole number of hundredths
    within 0.005 of it.  With a negative allowed time the ratio and the
    field are infinite and the tier is Critical.  There is no third case. *)
Theorem recorded_ratio_is_rounded_ratio
    (data : list incident) (sla : list (SLA.sla_key * Timedelta.t))
    (bd : SLA.breach_detail) :
  bd ∈ SLA.breached_details (SLA.check_sla_breach data sla) →
  match Spec.ratio_of bd, SLA.Breach_Ratio bd with
  | Num.Fin q, Num.Fin r =>
      (0 < SLA.SLA_Duration_hrs bd)%Q
      ∧ (q - (1 # 200) <= r)%Q ∧ (r <= q + (1 # 200))%Q
      ∧ ∃ n : Z, r = (inject_Z n / 100)%Q
  | Num.PosInf, Num.PosInf =>
      (SLA.SLA_Duration_hrs bd < 0)%Q ∧ SLA.Severity bd = Critical
  | _, _ => False
  end.
Proof.
  intros Hin. apply detail_origin in Hin
    as (row & h & ot & d & _ & _ & _ & Hne & _ & ->).
  unfold Spec.ratio_of, SLA.detail_of. simpl.
  destruct (sla_hours_sign d) as [Hpos Hneg].
  unfold SLA.breach_ratio.
  destruct (Num.Qltb 0 (Timedelta.total_seconds d / 3600)) eqn:E; simpl.
  - split; [apply Qltb_lt; exact E |].
    destruct (round2_near (h / (Timedelta.total_seconds d / 3600)))
      as [Hlo Hhi].
    split; [exact Hlo |]. split; [exact Hhi |]. eexists. reflexivity.
  - split; [| reflexivity]. apply Hneg.
    assert (¬ (0 < d)%Z) by (intros H; apply Hpos in H; congruence). lia.
Qed.

Lemma recorded_ratio_is_rounded_ratio_witness :
  let bd := SLA.detail_of Samples.row_ratio_1001 (1001 # 1000)
              (At (Samples.monday + 0 * 604800)) (Timedelta.of_hours 1) in
  match Spec.ratio_of bd, SLA.Breach_Ratio bd with
  | Num.Fin q, Num.Fin r =>
      (0 < SLA.SLA_Duration_hrs bd)%Q
      ∧ (q - (1 # 200) <= r)%Q ∧ (r <= q + (1 # 200))%Q
      ∧ ∃ n : Z, r = (inject_Z n / 100)%Q
  | Num.PosInf, Num.PosInf =>
      (SLA.SLA_Duration_hrs bd < 0)%Q ∧ SLA.Severity bd = Critical
  | _, _ => False
  end.
Proof.
  intros bd.
  apply (recorded_ratio_is_rounded_ratio [Samples.row_ratio_1001]
           SLA.default_sla bd).
  vm_compute. left.
Defined.

(** ** The weekly trend *)

Section TrendMore.

Lemma total_bump (w : Z) (sizes : list (Z * Z)) :
  Trend.total (Trend.bump w sizes).*2 = Trend.total sizes.*2 + 1.
Proof.
  induction sizes as [| [k c] sizes IH]; [reflexivity |].
  simpl Trend.bump.
  destruct (w <? k); [| destruct (w =? k)]; rewrite !fmap_cons;
    unfold Trend.total in *; simpl foldr; try rewrite IH; simpl; lia.
Qed.

Lemma total_groupby_size (keys : list (option Z)) :
  Trend.total (Trend.groupby_size keys).*2
  = Z.of_nat (length (filter is_Some keys)).
Proof.
  unfold Trend.groupby_size.
  assert (H : ∀ acc,
    Trend.total
      (foldl (λ sizes (k : option Z),
                match k with Some w => Trend.bump w sizes | None => sizes end)
             acc keys).*2
    = Trend.total acc.*2 + Z.of_nat (length (filter is_Some keys))).
  { induction keys as [| k keys IH]; intros acc; simpl foldl.
    - simpl. lia.
    - rewrite IH, filter_cons. destruct k as [w |].
      + rewrite total_bump, decide_True by eauto. simpl length. lia.
      + rewrite decide_False by (intros [? ?]; discriminate). reflexivity. }
  rewrite H. reflexivity.
Qed.

(** The order in which two rows enter the table of sizes does not matter. *)
Lemma bump_comm (a b : Z) (sizes : list (Z * Z)) :
  Trend.bump a (Trend.bump b sizes) = Trend.bump b (Trend.bump a sizes).
Proof.
  induction sizes as [| [k c] sizes IH]; simpl.
  - destruct (Z.ltb_spec a b), (Z.ltb_spec b a), (Z.eqb_spec a b),
      (Z.eqb_spec b a); try lia; subst; reflexivity.
  - destruct (Z.ltb_spec b k), (Z.ltb_spec a k), (Z.eqb_spec b k),
      (Z.eqb_spec a k); simpl;
      repeat match goal with
             | |- context [?x <? ?y] => destruct (Z.ltb_spec x y); try lia
             | |- context [?x =? ?y] => destruct (Z.eqb_spec x y); try lia
             end; subst; try reflexivity; try lia; f_equal; try apply IH;
      f_equal; lia.
Qed.

Lemma foldl_comm_permutation {A B} (f : A → B → A) (l l' : list B) :
  (∀ acc x y, f (f acc x) y = f (f acc y) x) →
  l ≡ₚ l' → ∀ acc, foldl f acc l = foldl f acc l'.
Proof.
  intros Hf Hp. induction Hp as [| x l l' _ IH | x y l | l1 l2 l3 _ IH1 _ IH2];
    intros acc; simpl.
  - reflexivity.
  - apply IH.
  - rewrite Hf. reflexivity.
  - rewrite IH1. apply IH2.
Qed.

Lemma groupby_size_permutation (keys keys' : list (option Z)) :
  keys ≡ₚ keys' → Trend.groupby_size keys = Trend.groupby_size keys'.
Proof.
  intros Hp. unfold Trend.groupby_size.
  apply foldl_comm_permutation; [| exact Hp].
  intros acc [x |] [y |]; try reflexivity. apply bump_comm.
Qed.

Lemma trend_counts_positive
    (to_datetime_series : list time_cell → py_exn + list (option Z))
    (data : list incident) (bs : list Trend.bucket) :
  Trend.column_parser to_datetime_series →
  Trend.compute_weekly_trend to_datetime_series data = inr bs →
  Forall (λ b, 1 <= Trend.incident_count b) bs.
Proof.
  intros Hparser Hret.
  apply (compute_weekly_trend_inr _ _ _ Hparser) in Hret. subst bs.
  destruct (groupby_size_spec (Spec.week_of <$> data)) as (_ & Hpos & _).
  apply Forall_forall. intros b Hb.
  apply list_elem_of_lookup_1 in Hb as [i Hb].
  unfold Trend.trend_of_sizes in Hb.
  apply lookup_zip_with_Some in Hb as (kc & avg & -> & Hkc & _).
  apply list_elem_of_lookup_2 in Hkc. rewrite Forall_forall in Hpos.
  apply (Hpos kc Hkc).
Qed.

End TrendMore.

(** X9.  The buckets partition the rows that have an open time: no bucket is
    empty and the counts add up to the number of those rows. *)
Theorem weekly_counts_add_up
    (to_datetime_series : list time_cell → py_exn + list (option Z))
    (data : list incident) (bs : list Trend.bucket) :
  Trend.column_parser to_datetime_series →
  Trend.compute_weekly_trend to_datetime_series data = inr bs →
  Forall (λ b, 1 <= Trend.incident_count b) bs
  ∧ Trend.total (Trend.incident_count <$> bs)
    = Z.of_nat (length (filter (λ row, is_Some (Spec.week_of row)) data)).
Proof.
  intros Hparser Hret.
  split; [eapply trend_counts_positive; [exact Hparser | exact Hret] |].
  apply (compute_weekly_trend_inr _ _ _ Hparser) in Hret. subst bs.
  destruct (trend_fields (Trend.groupby_size (Spec.week_of <$> data)))
    as (_ & -> & _).
  rewrite total_groupby_size, length_filter_fmap. reflexivity.
Qed.

Lemma weekly_counts_add_up_witness :
  ∃ bs, Trend.compute_weekly_trend Trend.read_each_cell Samples.four_weeks = inr bs
        ∧ Trend.total (Trend.incident_count <$> bs) = 73.
Proof.
  exists (Trend.trend_of_sizes
            (Trend.groupby_size (Spec.week_of <$> Samples.four_weeks))).
  assert (Hret : Trend.compute_weekly_trend Trend.read_each_cell Samples.four_weeks
                 = inr (Trend.trend_of_sizes
                          (Trend.groupby_size
                             (Spec.week_of <$> Samples.four_weeks))))
    by (vm_compute; reflexivity).
  split; [exact Hret |].
  rewrite (proj2 (weekly_counts_add_up _ _ _ read_each_cell_parser Hret)).
  vm_compute. reflexivity.
Defined.

(** X10.  Where the trend is returned for two orderings of the same rows,
    it is the same list of buckets.  (Whether the column is read at all may
    depend on the order of its cells.) *)
Theorem compute_weekly_trend_permutation
    (to_datetime_series : list time_cell → py_exn + list (option Z))
    (data data' : list incident) (bs bs' : list Trend.bucket) :
  Trend.column_parser to_datetime_series →
  data ≡ₚ data' →
  Trend.compute_weekly_trend to_datetime_series data = inr bs →
  Trend.compute_weekly_trend to_datetime_series data' = inr bs' →
  bs = bs'.
Proof.
  intros Hparser Hp Hret Hret'.
  apply (compute_weekly_trend_inr _ _ _ Hparser) in Hret, Hret'.
  subst bs bs'.
  rewrite (groupby_size_permutation (Spec.week_of <$> data)
             (Spec.week_of <$> data')); [reflexivity |].
  apply fmap_Permutation. exact Hp.
Qed.

Lemma compute_weekly_trend_permutation_witness :
  ∃ bs, Trend.compute_weekly_trend Trend.read_each_cell
          [Samples.row_312; Samples.row "NEXT" 2 2 2 None (Samples.in_week 1)]
        = inr bs
      ∧ Trend.compute_weekly_trend Trend.read_each_cell
          [Samples.row "NEXT" 2 2 2 None (Samples.in_week 1); Samples.row_312]
        = inr bs.
Proof.
  eexists. split; [vm_compute; reflexivity |].
  assert (Hret : ∃ bs', Trend.compute_weekly_trend Trend.read_each_cell
            [Samples.row "NEXT" 2 2 2 None (Samples.in_week 1);
             Samples.row_312] = inr bs')
    by (eexists; vm_compute; reflexivity).
  destruct Hret as [bs' Hret]. rewrite Hret. f_equal. symmetry.
  eapply (compute_weekly_trend_permutation Trend.read_each_cell
            [Samples.row_312;
             Samples.row "NEXT" 2 2 2 None (Samples.in_week 1)]
            [Samples.row "NEXT" 2 2 2 None (Samples.in_week 1);
             Samples.row_312]).
  - exact read_each_cell_parser.
  - apply Permutation_swap.
  - vm_compute. reflexivity.
  - exact Hret.
Defined.

Section SpikeRule.

Lemma is_spike_mean1 (c : Z) :
  1 <= c → Trend.is_spike c (Trend.mean [c]) = false.
Proof.
  intros Hc. unfold Trend.is_spike, Trend.mean, Num.Qltb. simpl.
  apply Z.ltb_ge. lia.
Qed.

Lemma is_spike_mean2 (a c : Z) :
  Trend.is_spike c (Trend.mean [a; c]) = true ↔ 3 * a < c.
Proof.
  unfold Trend.is_spike, Trend.mean, Num.Qltb. simpl.
  rewrite Z.ltb_lt. lia.
Qed.

Lemma is_spike_mean3 (a b c : Z) :
  Trend.is_spike c (Trend.mean [a; b; c]) = true ↔ a + b < c.
Proof.
  unfold Trend.is_spike, Trend.mean, Num.Qltb. simpl.
  rewrite Z.ltb_lt. lia.
Qed.

Lemma first_bucket_not_spike
    (to_datetime_series : list time_cell → py_exn + list (option Z))
    (data : list incident) (bs : list Trend.bucket) (b : Trend.bucket) :
  Trend.column_parser to_datetime_series →
  Trend.compute_weekly_trend to_datetime_series data = inr bs →
  bs !! 0%nat = Some b → Trend.spike b = false.
Proof.
  intros Hparser Hret Hb.
  pose proof (trend_counts_positive _ data bs Hparser Hret) as Hpos.
  apply (compute_weekly_trend_inr _ _ _ Hparser) in Hret.
  set (weekly := Trend.groupby_size (Spec.week_of <$> data)) in Hret.
  pose proof Hb as Hb'. rewrite Hret in Hb'.
  destruct (trend_lookup weekly _ _ Hb') as [Havg ->]. rewrite Havg.
  rewrite <- Hret.
  rewrite (take_S_r bs 0 b Hb), take_0. simpl.
  apply is_spike_mean1. rewrite Forall_forall in Hpos.
  apply Hpos. eapply list_elem_of_lookup_2; exact Hb.
Qed.

End SpikeRule.

(** X11.  The spike rule in whole numbers: the first bucket is never a
    spike; the second is one iff its count is more than three times the
    first count; every later bucket is one iff its count is more than the
    sum of the two counts before it. *)
Theorem spike_rule_in_counts
    (to_datetime_series : list time_cell → py_exn + list (option Z))
    (data : list incident) (bs : list Trend.bucket) :
  Trend.column_parser to_datetime_series →
  Trend.compute_weekly_trend to_datetime_series data = inr bs →
  (∀ b, bs !! 0%nat = Some b → Trend.spike b = false)
  ∧ (∀ b0 b1, bs !! 0%nat = Some b0 → bs !! 1%nat = Some b1 →
       (Trend.spike b1 = true
        ↔ 3 * Trend.incident_count b0 < Trend.incident_count b1))
  ∧ (∀ i p2 p1 b,
       bs !! i = Some p2 → bs !! S i = Some p1 → bs !! S (S i) = Some b →
       (Trend.spike b = true
        ↔ Trend.incident_count p2 + Trend.incident_count p1
          < Trend.incident_count b)).
Proof.
  intros Hparser Hret0. pose proof Hret0 as Hret.
  apply (compute_weekly_trend_inr _ _ _ Hparser) in Hret.
  set (weekly := Trend.groupby_size (Spec.week_of <$> data)) in Hret.
  split; [| split].
  - intros b Hb. eapply first_bucket_not_spike; eauto.
  - intros b0 b1 H0 H1. pose proof H1 as H1'. rewrite Hret in H1'.
    destruct (trend_lookup weekly _ _ H1') as [Havg ->]. rewrite Havg.
    rewrite <- Hret.
    rewrite (take_S_r bs 1 b1 H1), (take_S_r bs 0 b0 H0), take_0. simpl.
    apply is_spike_mean2.
  - intros i p2 p1 b H2 H1 H0. pose proof H0 as H0'. rewrite Hret in H0'.
    destruct (trend_lookup weekly _ _ H0') as [Havg ->]. rewrite Havg.
    rewrite <- Hret.
    replace (S (S (S i)) - 3)%nat with i by lia.
    rewrite (window_of_three bs i p2 p1 b H2 H1 H0). simpl.
    apply is_spike_mean3.
Qed.

Lemma spike_rule_in_counts_witness :
  ∃ bs, Trend.compute_weekly_trend Trend.read_each_cell Samples.four_weeks = inr bs
        ∧ ∀ b, bs !! 0%nat = Some b → Trend.spike b = false.
Proof.
  exists (Trend.trend_of_sizes
            (Trend.groupby_size (Spec.week_of <$> Samples.four_weeks))).
  assert (Hret : Trend.compute_weekly_trend Trend.read_each_cell Samples.four_weeks
                 = inr (Trend.trend_of_sizes
                          (Trend.groupby_size
                             (Spec.week_of <$> Samples.four_weeks))))
    by (vm_compute; reflexivity).
  split; [exact Hret |].
  exact (proj1 (spike_rule_in_counts _ _ _ read_each_cell_parser Hret)).
Defined.

(** ** [decode_categories] *)

Section DecodeFacts.

Lemma int_keyed_app (l1 l2 : list (Decode.json_key * string))
    (m : gmap Z string) :
  Decode.int_keyed (l1 ++ l2) m
  = match Decode.int_keyed l1 m with
    | inl e => inl e
    | inr m1 => Decode.int_keyed l2 m1
    end.
Proof.
  revert m. induction l1 as [| [k v] l1 IH]; intros m; [reflexivity |].
  simpl. destruct (Decode.py_int k); [reflexivity | apply IH].
Qed.

Lemma int_keyed_raises (items : list (Decode.json_key * string))
    (m : gmap Z string) :
  Decode.int_keyed items m = inl Decode.ValueError
  ↔ ∃ v, (Decode.KeyNotInt, v) ∈ items.
Proof.
  revert m. induction items as [| [k v] items IH]; intros m; simpl.
  - split; [discriminate | intros [v Hin]; inversion Hin].
  - destruct k as [z |]; simpl.
    + rewrite IH. split.
      * intros [v' Hin]. exists v'. right. exact Hin.
      * intros [v' Hin]. apply elem_of_cons in Hin as [[=] | Hin]. eauto.
    + split; [| reflexivity]. intros _. exists v. left.
Qed.

Lemma int_keyed_returns (items : list (Decode.json_key * string))
    (m : gmap Z string) :
  (∀ v, (Decode.KeyNotInt, v) ∉ items) →
  ∃ m', Decode.int_keyed items m = inr m'.
Proof.
  intros Hok. destruct (Decode.int_keyed items m) as [[] | m'] eqn:E; [| eauto].
  apply int_keyed_raises in E as [v Hin]. destruct (Hok v Hin).
Qed.

Lemma int_keyed_absent (items : list (Decode.json_key * string))
    (m m' : gmap Z string) (z : Z) :
  Decode.int_keyed items m = inr m' →
  (∀ v, (Decode.KeyInt z, v) ∉ items) → m' !! z = m !! z.
Proof.
  revert m. induction items as [| [k v] items IH]; intros m; simpl.
  - intros [= <-] _. reflexivity.
  - destruct k as [z0 |]; simpl; [| discriminate].
    intros Hret Hno. rewrite (IH _ Hret).
    + apply lookup_insert_ne. intros ->. apply (Hno v). left.
    + intros v' Hin. apply (Hno v'). right. exact Hin.
Qed.

Lemma int_keyed_last (l1 l2 : list (Decode.json_key * string))
    (m m' : gmap Z string) (z : Z) (v : string) :
  Decode.int_keyed (l1 ++ (Decode.KeyInt z, v) :: l2) m = inr m' →
  (∀ v', (Decode.KeyInt z, v') ∉ l2) → m' !! z = Some v.
Proof.
  rewrite int_keyed_app.
  destruct (Decode.int_keyed l1 m) as [e | m1]; [discriminate |]. simpl.
  intros Hret Hno. rewrite (int_keyed_absent _ _ _ _ Hret Hno).
  apply lookup_insert_eq.
Qed.

(** A code is the key of no item, or of a last one. *)
Lemma last_item_of_code (items : list (Decode.json_key * string)) (z : Z) :
  (∀ v, (Decode.KeyInt z, v) ∉ items)
  ∨ ∃ l1 v l2, items = l1 ++ (Decode.KeyInt z, v) :: l2
               ∧ ∀ v', (Decode.KeyInt z, v') ∉ l2.
Proof.
  induction items as [| [k v0] items IH].
  - left. intros v Hin. inversion Hin.
  - destruct IH as [Hno | (l1 & v & l2 & -> & Hno)].
    + destruct k as [z0 |]; [destruct (decide (z0 = z)) as [-> | Hne] |].
      * right. exists [], v0, items. auto.
      * left. intros v Hin. apply elem_of_cons in Hin as [[= ?] | Hin];
          [congruence | apply (Hno v Hin)].
      * left. intros v Hin. apply elem_of_cons in Hin as [[=] | Hin].
        apply (Hno v Hin).
    + right. exists ((k, v0) :: l1), v, l2. auto.
Qed.

Lemma decode_column (items : list (Decode.json_key * string))
    (m : gmap Z string) (codes : list (option Z)) :
  Decode.int_keyed items ∅ = inr m →
  Forall2 (Props.label_for items) codes
    (Decode.fillna (Decode.series_map m codes)).
Proof.
  intros Hret. unfold Decode.fillna, Decode.series_map.
  induction codes as [| c codes IH]; [constructor |].
  rewrite !fmap_cons. constructor; [| exact IH].
  destruct c as [z |]; simpl; [| constructor].
  destruct (last_item_of_code items z) as [Hno | (l1 & v & l2 & Heq & Hno)].
  - rewrite (int_keyed_absent _ _ _ _ Hret Hno), lookup_empty.
    apply Props.label_unmapped. exact Hno.
  - subst items. rewrite (int_keyed_last _ _ _ _ _ _ Hret Hno). simpl.
    eapply Props.label_last; eauto.
Qed.

End DecodeFacts.

(** X12.  When the call returns, each row gets, for its category and for
    its subcategory, the label of the last item of the mapping whose key is
    its code, and ["Unknown"] when its code is missing or is the key of no
    item; a mapping without the entry ["CI_Cat"] labels every row
    ["Unknown"]. *)
Theorem decode_categories_labels
    (data : list Decode.row)
    (mappings : gmap string (list (Decode.json_key * string)))
    (out : Decode.decoded) :
  Decode.decode_categories data mappings = inr out →
  Forall2 (Props.label_for (default [] (mappings !! "CI_Cat")))
    (Decode.CI_Cat_enc <$> data) (Decode.CI_Cat out)
  ∧ Forall2 (Props.label_for (default [] (mappings !! "CI_Subcat")))
      (Decode.CI_Subcat_enc <$> data) (Decode.CI_Subcat out)
  ∧ (mappings !! "CI_Cat" = None →
     Decode.CI_Cat out = replicate (length data) "Unknown").
Proof.
  unfold Decode.decode_categories.
  destruct (Decode.int_keyed (default [] (mappings !! "CI_Cat")) ∅)
    as [e | mc] eqn:Ec; [discriminate |].
  destruct (Decode.int_keyed (default [] (mappings !! "CI_Subcat")) ∅)
    as [e | ms] eqn:Es; [discriminate |].
  intros [= <-]. simpl. split; [| split].
  - apply decode_column. exact Ec.
  - apply decode_column. exact Es.
  - intros Hnone. rewrite Hnone in Ec. simpl in Ec. injection Ec as <-.
    unfold Decode.fillna, Decode.series_map.
    induction data as [| r data IH]; [reflexivity |].
    rewrite !fmap_cons, IH. simpl. f_equal.
    destruct (Decode.CI_Cat_enc r); reflexivity.
Qed.

Lemma decode_categories_labels_witness :
  let data := [ {| Decode.CI_Cat_enc := Some 1; Decode.CI_Subcat_enc := None |};
                {| Decode.CI_Cat_enc := Some 7; Decode.CI_Subcat_enc := Some 2 |} ] in
  let mappings : gmap string (list (Decode.json_key * string)) :=
    <["CI_Cat" := [(Decode.KeyInt 1, "hardware"); (Decode.KeyInt 1, "software")]]> ∅ in
  Forall2 (Props.label_for (default [] (mappings !! "CI_Cat")))
    (Decode.CI_Cat_enc <$> data) ["software"; "Unknown"].
Proof.
  intros data mappings.
  apply (decode_categories_labels data mappings
           {| Decode.CI_Cat := ["software"; "Unknown"];
              Decode.CI_Subcat := ["Unknown"; "Unknown"] |}).
  vm_compute. reflexivity.
Defined.

(** X13.  The call raises [ValueError] iff some key of the category mapping
    or of the subcategory mapping is not an integer, whatever the rows are,
    an empty snapshot included; otherwise it returns one label of each kind
    per row. *)
Theorem decode_categories_raises_iff_bad_key
    (data : list Decode.row)
    (mappings : gmap string (list (Decode.json_key * string))) :
  (Decode.decode_categories data mappings = inl Decode.ValueError
   ↔ (∃ v, (Decode.KeyNotInt, v) ∈ default [] (mappings !! "CI_Cat"))
     ∨ (∃ v, (Decode.KeyNotInt, v) ∈ default [] (mappings !! "CI_Subcat")))
  ∧ match Decode.decode_categories data mappings with
    | inr out => length (Decode.CI_Cat out) = length data
                 ∧ length (Decode.CI_Subcat out) = length data
    | inl _ => True
    end.
Proof.
  unfold Decode.decode_categories.
  destruct (Decode.int_keyed (default [] (mappings !! "CI_Cat")) ∅)
    as [[] | mc] eqn:Ec.
  { split; [| exact I]. split; [| reflexivity].
    intros _. left. apply int_keyed_raises in Ec. exact Ec. }
  destruct (Decode.int_keyed (default [] (mappings !! "CI_Subcat")) ∅)
    as [[] | ms] eqn:Es.
  { split; [| exact I]. split; [| reflexivity].
    intros _. right. apply int_keyed_raises in Es. exact Es. }
  split.
  - split; [discriminate |]. intros [H | H].
    + apply (int_keyed_raises _ ∅) in H. congruence.
    + apply (int_keyed_raises _ ∅) in H. congruence.
  - simpl. unfold Decode.fillna, Decode.series_map.
    rewrite !length_fmap. auto.
Qed.

Lemma decode_categories_raises_iff_bad_key_witness :
  Decode.decode_categories []
    (<["CI_Subcat" := [(Decode.KeyInt 1, "a"); (Decode.KeyNotInt, "b")]]> ∅)
  = inl Decode.ValueError.
Proof.
  apply (proj1 (decode_categories_raises_iff_bad_key [] _)).
  right. exists "b". vm_compute. right. left.
Defined.

(** ** [get_top_n] *)

Section TopNFacts.

Lemma tally_keys (v : Z) (counts : list (Z * nat)) :
  (TopN.tally v counts).*1
  = if bool_decide (v ∈ counts.*1) then counts.*1 else counts.*1 ++ [v].
Proof.
  induction counts as [| [k c] counts IH]; [reflexivity |].
  simpl TopN.tally. destruct (Z.eqb_spec k v) as [-> | Hne].
  - rewrite bool_decide_eq_true_2 by (rewrite fmap_cons; left). reflexivity.
  - rewrite !fmap_cons, IH. simpl.
    destruct (bool_decide (v ∈ counts.*1)) eqn:E.
    + apply bool_decide_eq_true in E.
      rewrite bool_decide_eq_true_2 by (right; exact E). reflexivity.
    + apply bool_decide_eq_false in E. rewrite bool_decide_eq_false_2.
      * reflexivity.
      * intros Hin. apply elem_of_cons in Hin as [-> | Hin]; congruence.
Qed.

Lemma tally_NoDup (v : Z) (counts : list (Z * nat)) :
  NoDup counts.*1 → NoDup (TopN.tally v counts).*1.
Proof.
  intros Hnd. rewrite tally_keys. case_bool_decide as Hin; [exact Hnd |].
  apply NoDup_app. split; [exact Hnd |]. split; [| apply NoDup_singleton].
  intros x Hx Hx'. apply list_elem_of_singleton in Hx'. subst. contradiction.
Qed.

Lemma tally_positive (v : Z) (counts : list (Z * nat)) :
  Forall (λ kc, (1 <= kc.2)%nat) counts →
  Forall (λ kc, (1 <= kc.2)%nat) (TopN.tally v counts).
Proof.
  induction counts as [| [k c] counts IH]; simpl; intros Hs.
  - repeat constructor.
  - apply Forall_cons in Hs as [Hc Hs]. destruct (k =? v).
    + constructor; simpl; [lia | exact Hs].
    + constructor; [exact Hc | apply IH; exact Hs].
Qed.

Lemma count_of_tally (v0 v : Z) (counts : list (Z * nat)) :
  Props.count_of (TopN.tally v0 counts) v
  = (Props.count_of counts v + (if (v0 =? v)%Z then 1 else 0))%nat.
Proof.
  induction counts as [| [k c] counts IH]; simpl.
  - destruct (v0 =? v); reflexivity.
  - destruct (Z.eqb_spec k v0) as [-> | Hne]; simpl.
    + destruct (v0 =? v); lia.
    + rewrite IH. destruct (k =? v); lia.
Qed.

Lemma count_of_absent (counts : list (Z * nat)) (v : Z) :
  v ∉ counts.*1 → Props.count_of counts v = 0%nat.
Proof.
  induction counts as [| [k c] counts IH]; simpl; [reflexivity |].
  rewrite not_elem_of_cons. intros [Hne Hnot].
  destruct (Z.eqb_spec k v); [congruence | auto].
Qed.

Lemma count_of_NoDup (counts : list (Z * nat)) (v : Z) (c : nat) :
  NoDup counts.*1 → (v, c) ∈ counts → Props.count_of counts v = c.
Proof.
  induction counts as [| [k c0] counts IH]; simpl; intros Hnd Hin.
  - inversion Hin.
  - apply NoDup_cons in Hnd as [Hk Hnd].
    apply elem_of_cons in Hin as [[= -> ->] | Hin].
    + rewrite Z.eqb_refl, count_of_absent by exact Hk. lia.
    + destruct (Z.eqb_spec k v) as [-> | Hne]; [| auto].
      destruct Hk. apply list_elem_of_fmap. exists (v, c). auto.
Qed.

(** The table of counts before sorting. *)
Lemma count_values_spec (column : list (option Z)) :
  NoDup (TopN.count_values column).*1
  ∧ Forall (λ kc, (1 <= kc.2)%nat) (TopN.count_values column)
  ∧ ∀ v, Props.count_of (TopN.count_values column) v
         = Props.occurrences v column.
Proof.
  unfold TopN.count_values, Props.occurrences.
  assert (H : ∀ acc,
    NoDup acc.*1 → Forall (λ kc, (1 <= kc.2)%nat) acc →
    let res := foldl (λ counts (o : option Z),
                        match o with
                        | Some v => TopN.tally v counts
                        | None => counts
                        end) acc column in
    NoDup res.*1 ∧ Forall (λ kc, (1 <= kc.2)%nat) res
    ∧ ∀ v, Props.count_of res v
           = (Props.count_of acc v
              + length (filter (λ o, o = Some v) column))%nat).
  { induction column as [| o column IH]; intros acc Hnd Hpos; simpl.
    - split; [exact Hnd |]. split; [exact Hpos |]. intros v. lia.
    - destruct o as [v0 |].
      + destruct (IH (TopN.tally v0 acc)) as (H1 & H2 & H3);
          [apply tally_NoDup; exact Hnd | apply tally_positive; exact Hpos |].
        split; [exact H1 |]. split; [exact H2 |].
        intros v. rewrite H3, count_of_tally, filter_cons.
        destruct (Z.eqb_spec v0 v) as [-> | Hne].
        * rewrite decide_True by reflexivity. simpl. lia.
        * rewrite decide_False by congruence. lia.
      + destruct (IH acc Hnd Hpos) as (H1 & H2 & H3).
        split; [exact H1 |]. split; [exact H2 |].
        intros v. rewrite H3, filter_cons.
        rewrite decide_False by discriminate. reflexivity. }
  destruct (H [] (NoDup_nil_2)) as (H1 & H2 & H3); [constructor |].
  split; [exact H1 |]. split; [exact H2 |]. intros v. rewrite H3. reflexivity.
Qed.

Lemma occurrences_positive (v : Z) (column : list (option Z)) :
  (0 < Props.occurrences v column)%nat ↔ Some v ∈ column.
Proof.
  unfold Props.occurrences. induction column as [| o column IH].
  - simpl. split; [lia | intros H; inversion H].
  - rewrite filter_cons, elem_of_cons. destruct (decide (o = Some v)) as [-> | Hne].
    + simpl. split; [auto | lia].
    + rewrite IH. split; [auto |]. intros [E | H]; [congruence | exact H].
Qed.

Lemma count_values_elem (column : list (option Z)) (v : Z) (c : nat) :
  (v, c) ∈ TopN.count_values column
  ↔ c = Props.occurrences v column ∧ (1 <= c)%nat.
Proof.
  destruct (count_values_spec column) as (Hnd & Hpos & Hcount). split.
  - intros Hin. split.
    + rewrite <- Hcount. symmetry. apply count_of_NoDup; assumption.
    + rewrite Forall_forall in Hpos. apply (Hpos _ Hin).
  - intros [-> Hc].
    destruct (decide (v ∈ (TopN.count_values column).*1)) as [Hin | Hnot].
    + apply list_elem_of_fmap in Hin as ([v' c'] & Heq & Hin). simpl in Heq.
      subst v'. rewrite <- Hcount, (count_of_NoDup _ _ _ Hnd Hin). exact Hin.
    + apply count_of_absent in Hnot. rewrite Hcount in Hnot. lia.
Qed.

Lemma head_is_take {A} (n : Z) (l : list A) :
  ∃ k, TopN.head n l = take k l
       ∧ k = (if 0 <=? n then Z.to_nat n
              else (length l - Z.to_nat (- n))%nat).
Proof. unfold TopN.head. destruct (0 <=? n); eauto. Qed.

End TopNFacts.

(** X14.  Whatever order the sort leaves among equal counts, the items
    returned have distinct values, each with the number of times it occurs
    in the column (at least once; missing values are no item), in
    non-increasing order of count; there are [min n D] of them for
    [n ≥ 0] and [D - |n|] (none, if that is negative) for [n < 0], where [D]
    is the number of distinct values. *)
Theorem get_top_n_items
    (sort_values : list (Z * nat) → list (Z * nat))
    (column : list (option Z)) (n : Z) :
  TopN.sorts_by_count sort_values →
  let r := TopN.get_top_n sort_values column n in
  let D := length (remove_dups (omap id column)) in
  NoDup r.*1
  ∧ (∀ v c, (v, c) ∈ r → c = Props.occurrences v column ∧ (1 <= c)%nat)
  ∧ StronglySorted TopN.by_count r
  ∧ length r = (if 0 <=? n then Nat.min (Z.to_nat n) D
                else (D - Z.to_nat (- n))%nat).
Proof.
  intros Hsort r D.
  destruct (Hsort (TopN.count_values column)) as [Hperm Hsorted].
  destruct (count_values_spec column) as (Hnd & _ & _).
  destruct (head_is_take n (sort_values (TopN.count_values column)))
    as (k & Hr & Hk).
  fold (TopN.value_counts sort_values column) in Hr.
  fold (TopN.get_top_n sort_values column n) in Hr. fold r in Hr.
  assert (Hlen : length (sort_values (TopN.count_values column)) = D).
  { rewrite Hperm. rewrite <- (length_fmap fst). apply Permutation_length.
    apply NoDup_Permutation; [exact Hnd | apply NoDup_remove_dups |].
    intros v. rewrite elem_of_remove_dups, list_elem_of_omap. split.
    - intros Hin. apply list_elem_of_fmap in Hin as ([v' c] & Heq & Hin).
      simpl in Heq. subst v'. apply count_values_elem in Hin as [-> Hc].
      exists (Some v). split; [| reflexivity].
      apply occurrences_positive. lia.
    - intros (o & Hin & Heq). simpl in Heq. subst o.
      apply occurrences_positive in Hin.
      apply list_elem_of_fmap. exists (v, Props.occurrences v column).
      split; [reflexivity |]. apply count_values_elem. split; [reflexivity | lia]. }
  split; [| split; [| split]].
  - rewrite Hr, fmap_take. eapply sublist_NoDup; [| apply sublist_take].
    unfold TopN.value_counts. rewrite Hperm. exact Hnd.
  - intros v c Hin. rewrite Hr in Hin.
    apply count_values_elem. rewrite <- Hperm.
    eapply elem_of_sublist; [exact Hin | apply sublist_take].
  - rewrite Hr. unfold TopN.value_counts.
    rewrite <- (take_drop k (sort_values (TopN.count_values column)))
      in Hsorted.
    apply StronglySorted_app in Hsorted as (_ & H & _). exact H.
  - rewrite Hr. unfold TopN.value_counts. rewrite length_take, Hk, Hlen.
    destruct (0 <=? n); lia.
Qed.

Lemma stable_sort_sorts_by_count : TopN.sorts_by_count TopN.stable_sort.
Proof.
  intros l. unfold TopN.stable_sort. split.
  - apply merge_sort_Permutation.
  - apply StronglySorted_merge_sort.
    + intros a b c. unfold TopN.by_count. lia.
    + intros a b. unfold TopN.by_count. lia.
Qed.

Lemma get_top_n_items_witness :
  let column := [Some 1; Some 2; None; Some 2; Some 3; Some 3; Some 1; Some 3] in
  let r := TopN.get_top_n TopN.stable_sort column 2 in
  r = [(3, 3%nat); (1, 2%nat)] ∧ NoDup r.*1 ∧ length r = 2%nat.
Proof.
  intros column r.
  destruct (get_top_n_items TopN.stable_sort column 2
              stable_sort_sorts_by_count) as (Hnd & _ & _ & Hlen).
  split; [vm_compute; reflexivity |]. split; [exact Hnd |].
  etrans; [exact Hlen |]. vm_compute. reflexivity.
Defined.

(** X15.  No value left out occurs more often than a value returned: for
    every item (v, c) of the result and every value [w] that is not a key
    of it, [w] occurs at most [c] times in the column. *)
Theorem get_top_n_dominates
    (sort_values : list (Z * nat) → list (Z * nat))
    (column : list (option Z)) (n : Z) (v w : Z) (c : nat) :
  TopN.sorts_by_count sort_values →
  (v, c) ∈ TopN.get_top_n sort_values column n →
  w ∉ (TopN.get_top_n sort_values column n).*1 →
  (Props.occurrences w column <= c)%nat.
Proof.
  intros Hsort Hin Hout.
  destruct (Hsort (TopN.count_values column)) as [Hperm Hsorted].
  destruct (head_is_take n (sort_values (TopN.count_values column)))
    as (k & Hr & _).
  fold (TopN.value_counts sort_values column) in Hr.
  fold (TopN.get_top_n sort_values column n) in Hr.
  rewrite Hr in Hin, Hout.
  destruct (Nat.eq_dec (Props.occurrences w column) 0%nat) as [-> | Hpos];
    [lia |].
  unfold TopN.value_counts in *.
  assert (Hw : (w, Props.occurrences w column)
               ∈ sort_values (TopN.count_values column)).
  { rewrite Hperm. apply count_values_elem. split; [reflexivity | lia]. }
  rewrite <- (take_drop k (sort_values (TopN.count_values column)))
    in Hw, Hsorted.
  apply elem_of_app in Hw as [Hw | Hw].
  - destruct Hout. apply list_elem_of_fmap. eexists. split; [| exact Hw].
    reflexivity.
  - apply (StronglySorted_app_1_elem_of _ _ _ _ _ Hsorted Hin Hw).
Qed.

Lemma get_top_n_dominates_witness :
  Nat.le
    (Props.occurrences 2 [Some 1; Some 2; None; Some 2; Some 3; Some 3; Some 3])
    3.
Proof.
  apply (get_top_n_dominates TopN.stable_sort
           [Some 1; Some 2; None; Some 2; Some 3; Some 3; Some 3] 1 3 2 3
           stable_sort_sorts_by_count).
  - vm_compute. left.
  - vm_compute. intros H. apply list_elem_of_singleton in H. discriminate H.
Defined.

(** ** The spike sentence *)

Lemma explain_empty (spike_weeks : list string) :
  Explain.explain_spike_weeks spike_weeks = Explain.no_spikes →
  spike_weeks = [].
Proof.
  destruct spike_weeks as [| w rest]; [reflexivity |].
  unfold Explain.explain_spike_weeks. intros H. discriminate H.
Qed.

Section ExplainComposition.

Variable str : Z → string.

Lemma spike_weeks_nil (weekly : list Trend.bucket) :
  Explain.spike_weeks str weekly = []
  ↔ ∀ b, b ∈ weekly → Trend.spike b = false.
Proof.
  unfold Explain.spike_weeks. split.
  - intros Hnil b Hin. apply fmap_nil_inv in Hnil.
    destruct (Trend.spike b) eqn:E; [| reflexivity].
    assert (Hb : b ∈ filter (λ e, Trend.spike e = true) weekly)
      by (apply list_elem_of_filter; auto).
    rewrite Hnil in Hb. inversion Hb.
  - intros Hall.
    assert (Hnil : filter (λ e, Trend.spike e = true) weekly = []).
    { induction weekly as [| b weekly IH]; [reflexivity |].
      rewrite filter_cons, decide_False.
      + apply IH. intros b' Hin. apply Hall. right. exact Hin.
      + rewrite (Hall b) by left. discriminate. }
    rewrite Hnil. reflexivity.
Qed.

End ExplainComposition.

(** X17.  In [CategorizationAgent.run] the explanation is the "no spikes"
    sentence iff the trend has no flagged bucket; a trend of at most one
    bucket always gives it. *)
Theorem spike_explanation_no_spikes
    (to_datetime_series : list time_cell → py_exn + list (option Z))
    (str : Z → string) (data : list incident) (weekly : list Trend.bucket) :
  Trend.column_parser to_datetime_series →
  Trend.compute_weekly_trend to_datetime_series data = inr weekly →
  (Explain.spike_explanation to_datetime_series str data
   = inr Explain.no_spikes
   ↔ ∀ b, b ∈ weekly → Trend.spike b = false)
  ∧ ((length weekly <= 1)%nat →
     Explain.spike_explanation to_datetime_series str data
     = inr Explain.no_spikes).
Proof.
  intros Hparser Hret.
  assert (Hiff : Explain.spike_explanation to_datetime_series str data
                 = inr Explain.no_spikes
                 ↔ ∀ b, b ∈ weekly → Trend.spike b = false).
  { unfold Explain.spike_explanation. rewrite Hret.
    rewrite <- (spike_weeks_nil str weekly). split.
    - intros [= H]. apply explain_empty. exact H.
    - intros ->. reflexivity. }
  split; [exact Hiff |].
  intros Hlen. apply Hiff. intros b Hin.
  destruct weekly as [| b0 [| b1 rest]]; simpl in Hlen; try lia.
  - inversion Hin.
  - apply list_elem_of_singleton in Hin. subst b.
    apply (first_bucket_not_spike _ data [b0] b0 Hparser Hret). reflexivity.
Qed.

Lemma spike_explanation_no_spikes_witness :
  Explain.spike_explanation Trend.read_each_cell (λ _, "week")
    [Samples.row_312; Samples.row_ratio_15]
  = inr Explain.no_spikes.
Proof.
  assert (Hret : Trend.compute_weekly_trend Trend.read_each_cell
                   [Samples.row_312; Samples.row_ratio_15]
                 = inr (Trend.trend_of_sizes
                          (Trend.groupby_size
                             (Spec.week_of
                                <$> [Samples.row_312; Samples.row_ratio_15]))))
    by (vm_compute; reflexivity).
  apply (proj2 (spike_explanation_no_spikes _ (λ _, "week") _ _
                  read_each_cell_parser Hret)).
  vm_compute. lia.
Defined.

(** ** [SLAPriorityAgent] *)

Section AgentFacts.

Lemma char_free_app (c : ascii) (s t : string) :
  Props.char_free c s → Props.char_free c t → Props.char_free c (s +:+ t).
Proof.
  induction s as [| a s IH]; simpl; [auto |].
  intros [Ha Hs] Ht. split; [exact Ha | apply IH; assumption].
Qed.

Lemma pretty_N_go_char_free (c : ascii) (x : N) (s : string) :
  (∀ d, pretty_N_char d ≠ c) →
  Props.char_free c s → Props.char_free c (pretty_N_go x s).
Proof.
  intros Hc. revert s. induction (N.lt_wf_0 x) as [x _ IH]; intros s Hs.
  destruct (N.eq_dec x 0%N) as [-> | Hx].
  - rewrite pretty_N_go_0. exact Hs.
  - rewrite pretty_N_go_step by lia. apply IH.
    + apply N.div_lt; lia.
    + split; [apply Hc | exact Hs].
Qed.

Lemma pretty_Z_no_paren (z : Z) : Props.char_free "(" (pretty z).
Proof.
  assert (Hd : ∀ d, pretty_N_char d ≠ "("%char)
    by (intros d; unfold pretty_N_char; repeat case_match; discriminate).
  destruct z as [| p | p]; unfold pretty, pretty_Z.
  - simpl. split; [discriminate | exact I].
  - unfold pretty, pretty_positive, pretty, pretty_N.
    case_decide; [discriminate |].
    apply pretty_N_go_char_free; [exact Hd | exact I].
  - split; [discriminate |].
    unfold pretty, pretty_positive, pretty, pretty_N.
    case_decide; [discriminate |].
    apply pretty_N_go_char_free; [exact Hd | exact I].
Qed.

(** The text of a tuple is the key of no pair. *)
Lemma py_str_tuple_ne_fmt_key (i u i' u' : Z) :
  Agent.py_str (SLA.KTuple i u) ≠ SLA.fmt_key i' u'.
Proof.
  intros Heq.
  assert (Hfree : Props.char_free "(" (SLA.fmt_key i' u')).
  { unfold SLA.fmt_key. apply char_free_app; [apply pretty_Z_no_paren |].
    split; [discriminate | apply pretty_Z_no_paren]. }
  rewrite <- Heq in Hfree. simpl in Hfree. destruct Hfree as [Hne _].
  congruence.
Qed.

Lemma omap_all_None {A B} (f : A → option B) (l : list A) :
  (∀ x, f x = None) → omap f l = [].
Proof.
  intros Hf. induction l as [| x l IH]; [reflexivity |].
  change (omap f (x :: l))
    with (match f x with Some y => y :: omap f l | None => omap f l end).
  rewrite Hf. exact IH.
Qed.

(** A table no key of which is the key of any pair evaluates no row. *)
Lemma no_key_no_row (sla : list (SLA.sla_key * Timedelta.t))
    (data : list incident) :
  (∀ k d i u, (k, d) ∈ sla → SLA.str_key k ≠ SLA.fmt_key i u) →
  SLA.breaches (SLA.check_sla_breach data sla) = []
  ∧ SLA.breached_details (SLA.check_sla_breach data sla) = []
  ∧ SLA.total_sla_breaches (SLA.check_sla_breach data sla) = 0%nat.
Proof.
  intros Hno.
  assert (Hrow : ∀ row,
            Spec.sla_lookup (SLA.str_sla_definitions sla) row = None).
  { intros row. apply str_sla_definitions_None.
    intros (k & d & Hin & Hkey). exact (Hno _ _ _ _ Hin Hkey). }
  rewrite report_breaches, report_details, report_total_breaches.
  rewrite !omap_all_None; [auto | |].
  - intros row. unfold Spec.row_detail. rewrite Hrow. unfold SLA.guard.
    destruct (Handle_Time_hrs row), (SLA.parse_open_time (Open_Time__ row));
      reflexivity.
  - intros row. unfold Spec.row_indicator. rewrite Hrow. unfold SLA.guard.
    destruct (Handle_Time_hrs row), (SLA.parse_open_time (Open_Time__ row));
      reflexivity.
Qed.

Lemma default_init_tuple_keys :
  ∀ k d, (k, d) ∈ Agent.init [] → ∃ i u, k = SLA.KTuple i u.
Proof.
  intros k d Hin.
  assert (Hall : Forall (λ kv : SLA.sla_key * Timedelta.t,
                           ∃ i u, kv.1 = SLA.KTuple i u) (Agent.init []))
    by (vm_compute; repeat constructor; eauto).
  rewrite Forall_forall in Hall. apply (Hall (k, d) Hin).
Qed.

End AgentFacts.

(** X18.  [run] hands the tool a table keyed by [str(k)], and the text of a
    tuple, ["(i, u)"], is not the key ["i_u"] the tool looks up.  So with
    a table keyed by tuples, and with the default table in particular, no
    incident is evaluated: the indicator and detail lists are empty and the
    breach count and percentage are zero, whatever the snapshot. *)
Theorem run_with_tuple_keys_finds_no_breach :
  (∀ (self_sla_definitions : list (SLA.sla_key * Timedelta.t))
     (data : list incident),
     (∀ k d, (k, d) ∈ self_sla_definitions → ∃ i u, k = SLA.KTuple i u) →
     let r := Agent.run_sla_breach self_sla_definitions data in
     SLA.breaches r = [] ∧ SLA.breached_details r = []
     ∧ SLA.total_sla_breaches r = 0%nat
     ∧ (SLA.sla_breach_percentage r == 0)%Q
     ∧ SLA.total_incidents_analyzed r = length data)
  ∧ (∀ data : list incident,
       let r := Agent.run_sla_breach (Agent.init []) data in
       SLA.breaches r = [] ∧ SLA.breached_details r = []
       ∧ SLA.total_sla_breaches r = 0%nat
       ∧ (SLA.sla_breach_percentage r == 0)%Q
       ∧ SLA.total_incidents_analyzed r = length data).
Proof.
  assert (H : ∀ defs data,
            (∀ k d, (k, d) ∈ defs → ∃ i u, k = SLA.KTuple i u) →
            let r := Agent.run_sla_breach defs data in
            SLA.breaches r = [] ∧ SLA.breached_details r = []
            ∧ SLA.total_sla_breaches r = 0%nat
            ∧ (SLA.sla_breach_percentage r == 0)%Q
            ∧ SLA.total_incidents_analyzed r = length data).
  { intros defs data Htuples r. unfold r, Agent.run_sla_breach.
    destruct (no_key_no_row (Agent.run_str_sla_definitions defs) data)
      as (H1 & H2 & H3).
    - intros k d i u Hin. unfold Agent.run_str_sla_definitions in Hin.
      apply list_elem_of_fmap in Hin as ([k0 d0] & [= -> ->] & Hin).
      destruct (Htuples k0 d0 Hin) as (i0 & u0 & ->). simpl SLA.str_key.
      apply py_str_tuple_ne_fmt_key.
    - split; [exact H1 |]. split; [exact H2 |]. split; [exact H3 |].
      split; [| reflexivity].
      rewrite report_percentage, H3. apply percentage_zero. }
  split; [exact H |].
  intros data. apply H. apply default_init_tuple_keys.
Qed.

Lemma run_with_tuple_keys_finds_no_breach_witness :
  SLA.total_sla_breaches
    (Agent.run_sla_breach (Agent.init []) [Samples.row_ratio_15]) = 0%nat
  ∧ SLA.total_sla_breaches
      (SLA.check_sla_breach [Samples.row_ratio_15] (Agent.init [])) = 1%nat.
Proof.
  split; [| vm_compute; reflexivity].
  destruct run_with_tuple_keys_finds_no_breach as [H _].
  destruct (H (Agent.init []) [Samples.row_ratio_15])
    as (_ & _ & H3 & _); [| exact H3].
  intros k d Hin. vm_compute in Hin.
  repeat (apply elem_of_cons in Hin as [[= -> ->] | Hin]; [eauto |]).
  inversion Hin.
Defined.

(** X20.  The two tools read the open time of a breached row alike when it
    is a timestamp: the breach time of its detail record is the detection
    time the consistency check records for it.  When the open time is
    missing ([NaT]) they differ: the breach check records ['NaT'], the
    consistency check records null.  The detail records are, in order,
    those of the counted rows. *)
Theorem breach_times_are_detection_times
    (data : list incident) (sla : list (SLA.sla_key * Timedelta.t)) :
  let tbl := SLA.str_sla_definitions sla in
  Forall2
    (λ (bd : SLA.breach_detail) (row : incident),
       SLA.bd_Incident_ID bd = Incident_ID row
       ∧ match Open_Time__ row with
         | TimeNaT =>
             SLA.Breach_Time bd = NaT
             ∧ Consistency.Detected_At (Consistency.record_of row) = None
         | _ =>
             ∃ s, SLA.Breach_Time bd = At s
                  ∧ Consistency.Detected_At (Consistency.record_of row)
                    = Some s
         end)
    (SLA.breached_details (SLA.check_sla_breach data sla))
    (filter (λ row, Spec.counted tbl row = true) data).
Proof.
  intros tbl. rewrite report_details. fold tbl.
  induction data as [| row data IH]; [constructor |].
  change (omap ?f (row :: data))
    with (match f row with Some y => y :: omap f data | None => omap f data end).
  rewrite filter_cons.
  destruct (decide (Spec.counted tbl row = true)) as [Hc | Hc].
  - unfold Spec.counted in Hc. apply bool_decide_eq_true in Hc as [bd Hd].
    rewrite Hd. constructor; [| exact IH].
    apply row_detail_Some in Hd
      as (h & ot & d & _ & Ho & Ht & _ & _ & _ & ->).
    split; [reflexivity |].
    change (SLA.Breach_Time (SLA.detail_of row h ot d))
      with (SLA.isoformat_or_none ot).
    rewrite (isoformat_truthy ot Ht). subst ot.
    change (Consistency.Detected_At (Consistency.record_of row))
      with (Consistency.detected_at (Open_Time__ row)).
    destruct (Open_Time__ row); simpl in *; try discriminate; eauto.
  - destruct (Spec.row_detail tbl row) as [bd |] eqn:Hd; [| exact IH].
    destruct Hc. unfold Spec.counted. rewrite Hd.
    apply bool_decide_eq_true_2. eauto.
Qed.
